(** * KannadaAI: progress ledger, word bank, tutor orchestration, audio slot
      and voice capture, embedded from the TypeScript sources.

    Conventions of the embedding.
    - A JavaScript string is the list of its UTF-16 code units ([list N]);
      [lit] turns an ASCII literal of the source into that list.
    - A JavaScript [number] that the program only ever uses as a counter
      (points, thresholds, lesson and word counts, timestamps) is a [Z].
    - React state lives in records; a functional updater [setX(prev => ...)]
      is a function on the record.
    - An [async] function whose suspension other handlers can observe
      ([playAudio]) is cut at its [await]: the part before the suspension and
      the continuation are separate transitions of the event loop. The other
      [async] functions take what the awaited request settles to as an
      argument.
    - External collaborators (the inference service, the speech engines) are
      represented by the outcome they hand back; the requests sent to them
      are logged in the store. *)

From stdpp Require Import base gmap sets list strings pretty.
From Stdlib Require Import ZArith NArith Lia.

Open Scope Z_scope.

(* ===================================================================== *)
(** ** JavaScript strings                                                  *)
(* ===================================================================== *)

Abbreviation jsstring := (list N).

Module JS.

(** An ASCII source literal as UTF-16 code units. *)
Definition lit (s : string) : jsstring :=
  map Ascii.N_of_ascii (String.list_ascii_of_string s).

(** [s.length], and [a.length] for an array. *)
Definition length {A} (s : list A) : Z := Z.of_nat (List.length s).

(** A string is falsy exactly when it is empty: [!s]. *)
Definition falsy (s : jsstring) : bool :=
  match s with [] => true | _ => false end.

(** [p] is a prefix of [s]. *)
Fixpoint startsWith (s p : jsstring) : bool :=
  match p, s with
  | [], _ => true
  | _ :: _, [] => false
  | c :: p', d :: s' => (c =? d)%N && startsWith s' p'
  end.

(** [s.includes(t)] *)
Fixpoint includes (s t : jsstring) : bool :=
  startsWith s t ||
  match s with
  | [] => false
  | _ :: s' => includes s' t
  end.

(** WhiteSpace and LineTerminator code units, the ones [trim] strips. *)
Definition isTrimmable (c : N) : bool :=
  ((c =? 0x09) || (c =? 0x0A) || (c =? 0x0B) || (c =? 0x0C) || (c =? 0x0D)
   || (c =? 0x20) || (c =? 0xA0) || (c =? 0x1680)
   || ((0x2000 <=? c) && (c <=? 0x200A))
   || (c =? 0x2028) || (c =? 0x2029) || (c =? 0x202F) || (c =? 0x205F)
   || (c =? 0x3000) || (c =? 0xFEFF))%N.

Fixpoint trimStart (s : jsstring) : jsstring :=
  match s with
  | c :: s' => if isTrimmable c then trimStart s' else s
  | [] => []
  end.

Definition trimEnd (s : jsstring) : jsstring :=
  rev (trimStart (rev s)).

(** [s.trim()] *)
Definition trim (s : jsstring) : jsstring := trimEnd (trimStart s).

(** [s.replace(/[...]/g, '')] for a class of single code units. *)
Definition removeUnits (cls : N -> bool) (s : jsstring) : jsstring :=
  List.filter (fun c => negb (cls c)) s.

Definition isHighSurrogate (c : N) : bool := ((0xD800 <=? c) && (c <=? 0xDBFF))%N.
Definition isLowSurrogate (c : N) : bool := ((0xDC00 <=? c) && (c <=? 0xDFFF))%N.

(** The code point of a surrogate pair. *)
Definition codePoint (hi lo : N) : N :=
  (0x10000 + (hi - 0xD800) * 0x400 + (lo - 0xDC00))%N.

(** [s.replace(/[...]/gu, '')] for a class of astral code points: with the
    [u] flag the string is read by code point, a high surrogate followed by
    a low one being one character. *)
Fixpoint removeAstral (cls : N -> bool) (s : jsstring) : jsstring :=
  match s with
  | [] => []
  | hi :: tl =>
      match tl with
      | lo :: rest =>
          if isHighSurrogate hi && isLowSurrogate lo then
            if cls (codePoint hi lo) then removeAstral cls rest
            else hi :: lo :: removeAstral cls rest
          else hi :: removeAstral cls tl
      | [] => [hi]
      end
  end.

(** [/[\u0C80-\u0CFF]/.test(s)]: some code unit is in the Kannada block. *)
Definition hasKannada (s : jsstring) : bool :=
  existsb (fun c => (0x0C80 <=? c) && (c <=? 0x0CFF))%N s.

(** [toLowerCase] and [toUpperCase] on the ASCII letters, every other code
    unit kept: what the host functions do on a string whose other characters
    have no case, such as Kannada script. *)
Definition asciiToLowerCase (s : jsstring) : jsstring :=
  map (fun c => if (65 <=? c) && (c <=? 90) then c + 32 else c)%N s.

Definition asciiToUpperCase (s : jsstring) : jsstring :=
  map (fun c => if (97 <=? c) && (c <=? 122) then c - 32 else c)%N s.

(** [n.toString()] for an integer [n]. *)
Definition toString (n : Z) : jsstring := lit (pretty n).

End JS.

(* ===================================================================== *)
(** ** Exceptions and state: the shape of a handler body                   *)
(* ===================================================================== *)

(** A thrown value: the [name] and [message] a handler may inspect. *)
Record Exn := mkExn {
  exn_name : jsstring;
  exn_message : option jsstring
}.

(** [new Error(message)] *)
Definition Error (message : jsstring) : Exn :=
  mkExn (JS.lit "Error") (Some message).

(** The [TypeError] of a member access on [null]. *)
Definition TypeError : Exn :=
  mkExn (JS.lit "TypeError") (Some (JS.lit "Cannot read properties of null")).

(** The [DOMException] a speech recognizer throws when started twice. *)
Definition InvalidStateError : Exn :=
  mkExn (JS.lit "InvalidStateError") (Some (JS.lit "recognition has already started")).

Inductive Completion (A : Type) :=
| Normal (a : A)
| Throw (e : Exn).

Arguments Normal {A} a.
Arguments Throw {A} e.

(** A statement sequence over a store [S]: it ends normally with a value or
    abruptly with a thrown exception, and leaves a store either way. *)
Definition Eff (S A : Type) : Type := S -> Completion A * S.

Module Eff.

Definition ret {S A} (a : A) : Eff S A := fun s => (Normal a, s).

Definition bind {S A B} (c : Eff S A) (k : A -> Eff S B) : Eff S B :=
  fun s =>
    match c s with
    | (Normal a, s') => k a s'
    | (Throw e, s') => (Throw e, s')
    end.

Definition throw {S A} (e : Exn) : Eff S A := fun s => (Throw e, s).

(** [try { body } catch (e) { handler e }] *)
Definition tryCatch {S A} (body : Eff S A) (handler : Exn -> Eff S A) : Eff S A :=
  fun s =>
    match body s with
    | (Normal a, s') => (Normal a, s')
    | (Throw e, s') => handler e s'
    end.

(** [try { body } finally { cleanup }] *)
Definition tryFinally {S A} (body : Eff S A) (cleanup : Eff S unit) : Eff S A :=
  fun s =>
    match body s with
    | (r, s') =>
        match cleanup s' with
        | (Normal _, s'') => (r, s'')
        | (Throw e, s'') => (Throw e, s'')
        end
    end.

Definition get {S A} (f : S -> A) : Eff S A := fun s => (Normal (f s), s).

(** Run a computation on one component [T] of the store [S]. *)
Definition zoom {S T A} (proj : S -> T) (upd : T -> S -> S) (c : Eff T A)
  : Eff S A :=
  fun s => match c (proj s) with (r, t') => (r, upd t' s) end.

Definition modify {S} (f : S -> S) : Eff S unit := fun s => (Normal tt, f s).

(** The store a handler leaves behind. *)
Definition exec {S A} (c : Eff S A) (s : S) : S := snd (c s).

(** Did the handler let an exception escape? *)
Definition raises {S A} (c : Eff S A) (s : S) : bool :=
  match fst (c s) with Normal _ => false | Throw _ => true end.

End Eff.

Notation "x <- c ;; k" := (Eff.bind c (fun x => k))
  (at level 62, c at next level, right associativity).

(* ===================================================================== *)
(** ** types.ts                                                            *)
(* ===================================================================== *)

Inductive UserLevel := BEGINNER | INTERMEDIATE | ADVANCED.

Inductive AppMode := onboarding | dashboard | conversation | lesson.

Record Word := mkWord {
  kannada : jsstring;
  transliteration : jsstring;
  english : jsstring;
  category : option jsstring
}.

Inductive BadgeType := words | lessons | streak.

Record Badge := mkBadge {
  id : jsstring;
  name : jsstring;
  icon : jsstring;
  description : jsstring;
  unlocked : bool;
  threshold : Z;
  type : BadgeType
}.

Record UserProgress := mkUserProgress {
  points : Z;
  streak_days : Z;          (* field [streak] *)
  lessonsCompleted : Z;
  wordsLearned : Z;
  badges : list Badge
}.

Inductive Role := user | model.

Record Message := mkMessage {
  msg_id : jsstring;        (* field [id] *)
  role : Role;
  text : jsstring;
  vocabulary : option (list Word);
  translation : option jsstring
}.

#[global] Instance BadgeType_eq_dec : EqDecision BadgeType.
Proof. solve_decision. Defined.

#[global] Instance Role_eq_dec : EqDecision Role.
Proof. solve_decision. Defined.

#[global] Instance Word_eq_dec : EqDecision Word.
Proof. solve_decision. Defined.

(* ===================================================================== *)
(** ** App: progress ledger, badge evaluation, word bank                   *)
(* ===================================================================== *)

Module App.

Definition INITIAL_BADGES : list Badge :=
  [ mkBadge (JS.lit "1") (JS.lit "Rookie") [0xD83C; 0xDF31]%N
      (JS.lit "Learned first 10 words") false 10 words;
    mkBadge (JS.lit "2") (JS.lit "Chatter") [0xD83D; 0xDDE3; 0xFE0F]%N
      (JS.lit "Sent 10 messages") false 10 streak;
    mkBadge (JS.lit "3") (JS.lit "Scholar") [0xD83C; 0xDF93]%N
      (JS.lit "Completed 5 lessons") false 5 lessons ].

Record State := mkState {
  mode : AppMode;
  level : UserLevel;
  wordBank : list Word;
  isWordBankOpen : bool;
  userProgress : UserProgress
}.

Definition initial : State :=
  {| mode := onboarding;
     level := BEGINNER;
     wordBank := [];
     isWordBankOpen := false;
     userProgress :=
       {| points := 0; streak_days := 1; lessonsCompleted := 0;
          wordsLearned := 0; badges := INITIAL_BADGES |} |}.

(** [{ ...badge, unlocked: true }] *)
Definition withUnlocked (badge : Badge) : Badge :=
  {| id := id badge; name := name badge; icon := icon badge;
     description := description badge; unlocked := true;
     threshold := threshold badge; type := type badge |}.

(** The callback that [checkBadges] maps over the badge list. *)
Definition checkBadge (currentProgress : UserProgress) (badge : Badge) : Badge :=
  if unlocked badge then badge
  else
    let unlocked0 := false in
    let unlocked1 :=
      if bool_decide (type badge = words)
         && (threshold badge <=? wordsLearned currentProgress)
      then true else unlocked0 in
    let unlocked2 :=
      if bool_decide (type badge = lessons)
         && (threshold badge <=? lessonsCompleted currentProgress)
      then true else unlocked1 in
    if unlocked2 then withUnlocked badge else badge.

Definition checkBadges (currentProgress : UserProgress) : list Badge :=
  map (checkBadge currentProgress) (badges currentProgress).

(** [newProgress.badges = checkBadges(newProgress)] *)
Definition reevaluate (newProgress : UserProgress) : UserProgress :=
  {| points := points newProgress;
     streak_days := streak_days newProgress;
     lessonsCompleted := lessonsCompleted newProgress;
     wordsLearned := wordsLearned newProgress;
     badges := checkBadges newProgress |}.

Definition setUserProgress (f : UserProgress -> UserProgress) (s : State) : State :=
  {| mode := mode s; level := level s; wordBank := wordBank s;
     isWordBankOpen := isWordBankOpen s; userProgress := f (userProgress s) |}.

Definition setWordBank (f : list Word -> list Word) (s : State) : State :=
  {| mode := mode s; level := level s; wordBank := f (wordBank s);
     isWordBankOpen := isWordBankOpen s; userProgress := userProgress s |}.

Definition setMode (m : AppMode) (s : State) : State :=
  {| mode := m; level := level s; wordBank := wordBank s;
     isWordBankOpen := isWordBankOpen s; userProgress := userProgress s |}.

Definition setLevel (l : UserLevel) (s : State) : State :=
  {| mode := mode s; level := l; wordBank := wordBank s;
     isWordBankOpen := isWordBankOpen s; userProgress := userProgress s |}.

Definition setIsWordBankOpen (b : bool) (s : State) : State :=
  {| mode := mode s; level := level s; wordBank := wordBank s;
     isWordBankOpen := b; userProgress := userProgress s |}.

(** [existing] of [handleUpdateWordBank]: the keys already in the bank. *)
Definition existing (prev : list Word) : gset jsstring :=
  list_to_set (map kannada prev).

(** [filtered] of [handleUpdateWordBank]: the accepted candidates. *)
Definition filtered (prev newWords : list Word) : list Word :=
  filter (fun w => kannada w ∉ existing prev) newWords.

Definition handleUpdateWordBank (newWords : list Word) (s : State) : State :=
  let prev := wordBank s in
  let accepted := filtered prev newWords in
  let updated := accepted ++ prev in
  let s1 :=
    if 0 <? JS.length accepted then
      setUserProgress (fun curr =>
        let nextWords := wordsLearned curr + JS.length accepted in
        reevaluate
          {| points := points curr; streak_days := streak_days curr;
             lessonsCompleted := lessonsCompleted curr;
             wordsLearned := nextWords; badges := badges curr |}) s
    else s in
  setWordBank (fun _ => updated) s1.

Definition handleLessonComplete (s : State) : State :=
  let s1 :=
    setUserProgress (fun curr =>
      let nextLessons := lessonsCompleted curr + 1 in
      reevaluate
        {| points := points curr + 50; streak_days := streak_days curr;
           lessonsCompleted := nextLessons;
           wordsLearned := wordsLearned curr; badges := badges curr |}) s in
  setMode dashboard s1.

Definition handleLevelSelect (selectedLevel : UserLevel) (s : State) : State :=
  setMode dashboard (setLevel selectedLevel s).

(** Everything the application root lets its children and its own buttons
    do to the state. *)
Inductive Event :=
| UpdateWordBank (newWords : list Word)   (* onUpdateWordBank *)
| LessonComplete                          (* onComplete *)
| LevelSelect (selectedLevel : UserLevel) (* onboarding buttons *)
| SetMode (m : AppMode)                   (* Dashboard setMode, onChangeLevel *)
| Back                                    (* header back button *)
| SetIsWordBankOpen (b : bool).           (* word bank drawer *)

Definition step (e : Event) (s : State) : State :=
  match e with
  | UpdateWordBank newWords => handleUpdateWordBank newWords s
  | LessonComplete => handleLessonComplete s
  | LevelSelect l => handleLevelSelect l s
  | SetMode m => setMode m s
  | Back => setIsWordBankOpen false (setMode dashboard s)
  | SetIsWordBankOpen b => setIsWordBankOpen b s
  end.

(** The state after a sequence of events, oldest first. *)
Definition run (es : list Event) (s : State) : State :=
  fold_left (fun acc e => step e acc) es s.



(** The candidates of one call have pairwise distinct keys. *)
Definition batchDistinct (e : Event) : Prop :=
  match e with
  | UpdateWordBank newWords => NoDup (map kannada newWords)
  | _ => True
  end.


#[global] Instance batchDistinct_dec e : Decision (batchDistinct e).
Proof. destruct e; simpl; apply _. Defined.

End App.

(* ===================================================================== *)
(** ** services/geminiService: audio state and playback                    *)
(* ===================================================================== *)

Module Audio.

(** A [SpeechSynthesisUtterance] as the fallback configures it. *)
Record Utterance := mkUtterance {
  utterance_text : jsstring;
  utterance_voice : option jsstring;   (* [lang] of the chosen voice *)
  utterance_lang : jsstring
}.

(** The module's two globals and the part of the browser they point into.
    Browser objects are named by allocation number. *)
Record World := mkWorld {
  currentAudioContext : option nat;
  currentSource : option nat;
  openContexts : gset nat;      (* AudioContexts created and not yet closed *)
  playing : gmap nat nat;       (* sounding buffer sources, each with its context *)
  nextObject : nat;
  hasSpeechSynthesis : bool;    (* ['speechSynthesis' in window] *)
  voices : list jsstring;       (* [lang] of each installed voice *)
  speaking : list Utterance;    (* the speechSynthesis queue *)
  requests : list jsstring      (* texts sent to the remote synthesis service *)
}.

Definition initial (hasSpeech : bool) (installed : list jsstring) : World :=
  {| currentAudioContext := None; currentSource := None;
     openContexts := ∅; playing := ∅; nextObject := 0;
     hasSpeechSynthesis := hasSpeech; voices := installed;
     speaking := []; requests := [] |}.

Definition setCurrentAudioContext (c : option nat) (w : World) : World :=
  mkWorld c (currentSource w) (openContexts w) (playing w) (nextObject w)
    (hasSpeechSynthesis w) (voices w) (speaking w) (requests w).

Definition setCurrentSource (c : option nat) (w : World) : World :=
  mkWorld (currentAudioContext w) c (openContexts w) (playing w) (nextObject w)
    (hasSpeechSynthesis w) (voices w) (speaking w) (requests w).

Definition setOpenContexts (o : gset nat) (w : World) : World :=
  mkWorld (currentAudioContext w) (currentSource w) o (playing w) (nextObject w)
    (hasSpeechSynthesis w) (voices w) (speaking w) (requests w).

Definition setPlaying (p : gmap nat nat) (w : World) : World :=
  mkWorld (currentAudioContext w) (currentSource w) (openContexts w) p (nextObject w)
    (hasSpeechSynthesis w) (voices w) (speaking w) (requests w).

Definition setNextObject (n : nat) (w : World) : World :=
  mkWorld (currentAudioContext w) (currentSource w) (openContexts w) (playing w) n
    (hasSpeechSynthesis w) (voices w) (speaking w) (requests w).

Definition setSpeaking (q : list Utterance) (w : World) : World :=
  mkWorld (currentAudioContext w) (currentSource w) (openContexts w) (playing w)
    (nextObject w) (hasSpeechSynthesis w) (voices w) q (requests w).

Definition setRequests (r : list jsstring) (w : World) : World :=
  mkWorld (currentAudioContext w) (currentSource w) (openContexts w) (playing w)
    (nextObject w) (hasSpeechSynthesis w) (voices w) (speaking w) r.

(** *** The browser's side *)

(** [source.stop()] *)
Definition source_stop (src : nat) : Eff World unit :=
  Eff.modify (fun w => setPlaying (delete src (playing w)) w).

(** [context.close()]: the context goes away and its sources fall silent. *)
Definition context_close (ctx : nat) : Eff World unit :=
  Eff.modify (fun w =>
    setOpenContexts (openContexts w ∖ {[ctx]})
      (setPlaying (filter (fun kv => kv.2 ≠ ctx) (playing w)) w)).

(** [window.speechSynthesis.cancel()] *)
Definition speechSynthesis_cancel : Eff World unit :=
  Eff.modify (setSpeaking []).

(** [window.speechSynthesis.speak(u)] *)
Definition speechSynthesis_speak (u : Utterance) : Eff World unit :=
  Eff.modify (fun w => setSpeaking (speaking w ++ [u]) w).

(** [new AudioContext({sampleRate: 24000})] *)
Definition newAudioContext : Eff World nat :=
  fun w =>
    let ctx := nextObject w in
    (Normal ctx,
     setNextObject (S ctx) (setOpenContexts ({[ctx]} ∪ openContexts w) w)).

(** [ctx.createBufferSource()] *)
Definition createBufferSource (ctx : nat) : Eff World nat :=
  fun w => (Normal (nextObject w), setNextObject (S (nextObject w)) w).

(** [source.start()] on a source of context [ctx]. *)
Definition source_start (src ctx : nat) : Eff World unit :=
  Eff.modify (fun w => setPlaying (<[src := ctx]> (playing w)) w).

(** [ai.models.generateContent] with the TTS model: the request leaves. *)
Definition generateContent (cleanText : jsstring) : Eff World unit :=
  Eff.modify (fun w => setRequests (requests w ++ [cleanText]) w).

(** What the synthesis request resolves to. *)
Inductive TtsOutcome :=
| TtsRejected (e : Exn)          (* the request rejects *)
| TtsNoAudio                     (* no inline data in the first candidate *)
| TtsAudio (decodable : bool).   (* a payload; whether [decode] and
                                    [decodeAudioData] accept it *)

(** *** The module's functions *)

Definition stopAudio : Eff World unit :=
  cs <- Eff.get currentSource ;;
  _ <- match cs with
       | Some src =>
           _ <- Eff.tryCatch (source_stop src) (fun _ => Eff.ret tt) ;;
           Eff.modify (setCurrentSource None)
       | None => Eff.ret tt
       end ;;
  cc <- Eff.get currentAudioContext ;;
  _ <- match cc with
       | Some ctx =>
           _ <- Eff.tryCatch (context_close ctx) (fun _ => Eff.ret tt) ;;
           Eff.modify (setCurrentAudioContext None)
       | None => Eff.ret tt
       end ;;
  has <- Eff.get hasSpeechSynthesis ;;
  if has then speechSynthesis_cancel else Eff.ret tt.

Definition isMarkdown (c : N) : bool :=
  ((c =? 42) || (c =? 95) || (c =? 96) || (c =? 126))%N.     (* * _ ` ~ *)

Definition isBracket (c : N) : bool :=
  ((c =? 123) || (c =? 125) || (c =? 91) || (c =? 93)
   || (c =? 40) || (c =? 41))%N.                             (* { } [ ] ( ) *)

Definition isEmoji (cp : N) : bool :=
  (((0x1F600 <=? cp) && (cp <=? 0x1F64F))
   || ((0x1F300 <=? cp) && (cp <=? 0x1F5FF))
   || ((0x1F680 <=? cp) && (cp <=? 0x1F6FF))
   || ((0x1F1E0 <=? cp) && (cp <=? 0x1F1FF)))%N.

Definition cleanTextForTTS (text : jsstring) : jsstring :=
  if JS.falsy text then []
  else
    let cleaned := JS.removeUnits isMarkdown text in
    let cleaned := JS.removeUnits isBracket cleaned in
    let cleaned := JS.removeAstral isEmoji cleaned in
    JS.trim cleaned.

(** [a || b] on possibly undefined values. *)
Definition orElse {A} (a b : option A) : option A :=
  match a with Some _ => a | None => b end.

Definition speakWithBrowser (text : jsstring) : Eff World unit :=
  has <- Eff.get hasSpeechSynthesis ;;
  if negb has then Eff.ret tt
  else
    vs <- Eff.get voices ;;
    let preferredVoice :=
      orElse (List.find (fun v => bool_decide (v = JS.lit "kn-IN")) vs)
        (orElse (List.find (fun v => JS.includes v (JS.lit "kn")) vs)
           (orElse (List.find (fun v => bool_decide (v = JS.lit "hi-IN")) vs)
              (List.find (fun v => bool_decide (v = JS.lit "en-IN")) vs))) in
    let isKannada := JS.hasKannada text in
    speechSynthesis_speak
      {| utterance_text := text;
         utterance_voice := preferredVoice;
         utterance_lang := if isKannada then JS.lit "kn-IN" else JS.lit "en-US" |}.

(** [playAudio] up to its first [await]: [Some cleanText] when it is
    suspended on the synthesis request, [None] when it has returned. *)
Definition playAudio (text : jsstring) : Eff World (option jsstring) :=
  _ <- stopAudio ;;
  let cleanText := cleanTextForTTS text in
  if JS.falsy cleanText then Eff.ret None
  else
    Eff.tryCatch
      (_ <- (if (JS.length cleanText <? 3) && negb (JS.hasKannada cleanText)
             then Eff.throw (Error (JS.lit "Text too short for AI TTS"))
             else Eff.ret tt) ;;
       _ <- generateContent cleanText ;;
       Eff.ret (Some cleanText))
      (fun error => _ <- speakWithBrowser cleanText ;; Eff.ret None).

(** [playAudio] from the moment the synthesis request settles. The second
    [await], on [decodeAudioData], suspends on a promise that is already
    settled, so its continuation runs before any other handler and is part
    of this transition. *)
Definition playAudio_resume (cleanText : jsstring) (response : TtsOutcome)
  : Eff World unit :=
  Eff.tryCatch
    (match response with
     | TtsRejected e => Eff.throw e
     | TtsNoAudio =>
         Eff.throw (Error (JS.lit "No audio data returned from Gemini"))
     | TtsAudio decodable =>
         ctx <- newAudioContext ;;
         _ <- Eff.modify (setCurrentAudioContext (Some ctx)) ;;
         _ <- (if decodable then Eff.ret tt
               else Eff.throw (Error (JS.lit "decode"))) ;;
         cc <- Eff.get currentAudioContext ;;
         match cc with
         | None => Eff.throw TypeError
         | Some c =>
             src <- createBufferSource c ;;
             _ <- Eff.modify (setCurrentSource (Some src)) ;;
             source_start src c
         end
     end)
    (fun error => speakWithBrowser cleanText).

(** [currentSource.onended] *)
Definition onended : Eff World unit :=
  Eff.modify (setCurrentSource None).

(** *** The controller seen by the event loop *)

(** The globals and browser state, with the [playAudio] calls suspended on
    their synthesis request, oldest first. *)
Record System := mkSystem {
  world : World;
  pending : list jsstring
}.

Inductive Event :=
| Play (text : jsstring)                 (* some caller invokes [playAudio] *)
| Stop                                   (* some caller invokes [stopAudio] *)
| TtsSettles (k : nat) (response : TtsOutcome)
                                         (* the [k]-th pending request settles *)
| SourceEnds (src : nat)                 (* a source plays to its end *)
| UtteranceEnds.                         (* the first queued utterance ends *)

Definition step (e : Event) (s : System) : System :=
  match e with
  | Play text =>
      match playAudio text (world s) with
      | (Normal (Some cleanText), w) => mkSystem w (pending s ++ [cleanText])
      | (_, w) => mkSystem w (pending s)
      end
  | Stop => mkSystem (Eff.exec stopAudio (world s)) (pending s)
  | TtsSettles k response =>
      match pending s !! k with
      | Some cleanText =>
          mkSystem (Eff.exec (playAudio_resume cleanText response) (world s))
            (take k (pending s) ++ drop (S k) (pending s))
      | None => s
      end
  | SourceEnds src =>
      match playing (world s) !! src with
      | Some _ =>
          mkSystem (Eff.exec (_ <- source_stop src ;; onended) (world s)) (pending s)
      | None => s
      end
  | UtteranceEnds =>
      mkSystem (setSpeaking (tail (speaking (world s))) (world s)) (pending s)
  end.

Definition run (es : list Event) (s : System) : System :=
  fold_left (fun acc e => step e acc) es s.

(** Playbacks that can be heard: sounding sources and queued utterances. *)
Definition activePlaybacks (w : World) : nat :=
  size (playing w) + List.length (speaking w).

(** Nothing is held and nothing sounds. *)
Definition released (w : World) : Prop :=
  currentAudioContext w = None ∧ currentSource w = None
  ∧ openContexts w = ∅ ∧ playing w = ∅ ∧ speaking w = [].

(** The globals account for every audio resource the browser holds: every
    open context is the current one, every sounding source belongs to it, at
    most one playback can be heard, and nothing is queued on a browser
    without speech synthesis. *)
Definition singleSlot (w : World) : Prop :=
  (∀ ctx, ctx ∈ openContexts w → currentAudioContext w = Some ctx)
  ∧ (∀ src ctx, playing w !! src = Some ctx → currentAudioContext w = Some ctx)
  ∧ (activePlaybacks w ≤ 1)%nat
  ∧ (hasSpeechSynthesis w = false → speaking w = []).

(** A call of [playAudio] that nothing interrupts: the call, then its
    synthesis request settling, if it made one. *)
Definition playToCompletion (text : jsstring) (response : TtsOutcome)
  : Eff World unit :=
  suspended <- playAudio text ;;
  match suspended with
  | Some cleanText => playAudio_resume cleanText response
  | None => Eff.ret tt
  end.

End Audio.

(* ===================================================================== *)
(** ** services/geminiService: chat and answer validation                  *)
(* ===================================================================== *)

Module Tutor.

Record ChatResponse := mkChatResponse {
  reply : jsstring;
  translation : jsstring;
  nextQuestion : jsstring;
  vocabulary : list Word
}.

(** What leaves for the inference service. *)
Inductive Request :=
| ChatRequest (contents : list (Role * jsstring)) (level : UserLevel)
| ValidationRequest (prompt : jsstring).

(** What [generateContent] followed by reading (and parsing) [response.text]
    comes to. *)
Inductive Settled (A : Type) :=
| Rejected (e : Exn)     (* the request throws *)
| NoText                 (* [response.text] is undefined or empty *)
| BadJson                (* [JSON.parse] throws *)
| Parsed (a : A).        (* the value read from the response *)

Arguments Rejected {A} e.
Arguments NoText {A}.
Arguments BadJson {A}.
Arguments Parsed {A} a.

Definition isFailure {A} (r : Settled A) : bool :=
  match r with Parsed _ => false | _ => true end.

(** What a plain-text [generateContent] comes to: it throws, or it resolves
    with a [response.text] that may be undefined. *)
Inductive TextSettled :=
| TextRejected (e : Exn)
| TextIs (t : option jsstring).

Definition send (r : Request) : Eff (list Request) unit :=
  Eff.modify (fun sent => sent ++ [r]).

(** The payload of the [catch] branch of [chatWithTutor]. *)
Definition apology : ChatResponse :=
  {| reply := JS.lit "Kshamisi, connectivity problem.";
     translation := JS.lit "Sorry, connectivity problem.";
     nextQuestion := JS.lit "Can you repeat that?";
     vocabulary := [] |}.

Definition chatWithTutor (message : jsstring) (history : list (Role * jsstring))
    (level : UserLevel) (settled : Settled ChatResponse)
  : Eff (list Request) ChatResponse :=
  let contents := map (fun h => (h.1, h.2)) history in
  let contents := contents ++ [(user, message)] in
  Eff.tryCatch
    (_ <- send (ChatRequest contents level) ;;
     match settled with
     | Rejected e => Eff.throw e
     | NoText => Eff.throw (Error (JS.lit "No response from AI"))
     | BadJson => Eff.throw (Error (JS.lit "SyntaxError"))
     | Parsed r => Eff.ret r
     end)
    (fun error => Eff.ret apology).

Section Validation.

(** [String.prototype.toLowerCase] and [toUpperCase] of the host. *)
Variable toLowerCase toUpperCase : jsstring -> jsstring.

Definition validationPrompt (userAnswer correctAnswer : jsstring) : jsstring :=
  JS.lit "Is the answer " ++ [34%N] ++ userAnswer ++ [34%N]
  ++ JS.lit " effectively correct or close enough for the question expecting "
  ++ [34%N] ++ correctAnswer ++ [34%N]
  ++ JS.lit "? Reply TRUE or FALSE only.".

Definition validateAnswer (userAnswer correctAnswer : jsstring)
    (settled : TextSettled)
  : Eff (list Request) bool :=
  if JS.includes (toLowerCase userAnswer) (toLowerCase correctAnswer)
  then Eff.ret true
  else
    Eff.tryCatch
      (_ <- send (ValidationRequest (validationPrompt userAnswer correctAnswer)) ;;
       match settled with
       | TextRejected e => Eff.throw e
       | TextIs None => Eff.ret false
       | TextIs (Some t) =>
           Eff.ret (JS.includes (toUpperCase (JS.trim t)) (JS.lit "TRUE"))
       end)
      (fun _ => Eff.ret false).

End Validation.

End Tutor.

(* ===================================================================== *)
(** ** components/ChatInterface: the conversation flow                     *)
(* ===================================================================== *)

Module ChatInterface.

Record State := mkState {
  messages : list Message;
  isProcessing : bool
}.

Definition initial : State :=
  {| messages :=
       [ mkMessage (JS.lit "init") model
           (JS.lit "Namaskara! I am Sneha. Press the mic to talk.")
           (Some []) None ];
     isProcessing := false |}.

(** The component with what it reaches: the application root through
    [onUpdateWordBank], the audio controller, the inference service. *)
Record World := mkWorld {
  chat : State;
  app : App.State;
  audio : Audio.System;
  sent : list Tutor.Request
}.

Definition setMessages (f : list Message -> list Message) : Eff World unit :=
  Eff.modify (fun w =>
    mkWorld (mkState (f (messages (chat w))) (isProcessing (chat w)))
      (app w) (audio w) (sent w)).

Definition setIsProcessing (b : bool) : Eff World unit :=
  Eff.modify (fun w =>
    mkWorld (mkState (messages (chat w)) b) (app w) (audio w) (sent w)).

Definition onUpdateWordBank (newWords : list Word) : Eff World unit :=
  Eff.modify (fun w =>
    mkWorld (chat w) (App.handleUpdateWordBank newWords (app w)) (audio w) (sent w)).

(** A call of [playAudio] that is not awaited. *)
Definition playAudio (text : jsstring) : Eff World unit :=
  Eff.modify (fun w =>
    mkWorld (chat w) (app w) (Audio.step (Audio.Play text) (audio w)) (sent w)).

Definition chatWithTutor (message : jsstring) (history : list (Role * jsstring))
    (level : UserLevel) (settled : Tutor.Settled Tutor.ChatResponse)
  : Eff World Tutor.ChatResponse :=
  Eff.zoom sent (fun r w => mkWorld (chat w) (app w) (audio w) r)
    (Tutor.chatWithTutor message history level settled).

(** [handleVoiceResult]; [now] and [now'] are the two readings of
    [Date.now()], [settled] is what the chat request comes to. The
    [messages] the handler closes over are those of the render that
    installed it. *)
Definition handleVoiceResult (now now' : Z) (transcript : jsstring)
    (settled : Tutor.Settled Tutor.ChatResponse) : Eff World unit :=
  if JS.falsy (JS.trim transcript) then Eff.ret tt
  else
    let newUserMsg := mkMessage (JS.toString now) user transcript None None in
    rendered <- Eff.get (fun w => messages (chat w)) ;;
    level <- Eff.get (fun w => App.level (app w)) ;;
    _ <- setMessages (fun prev => prev ++ [newUserMsg]) ;;
    _ <- setIsProcessing true ;;
    Eff.tryFinally
      (Eff.tryCatch
         (let history := map (fun m => (role m, text m)) rendered in
          response <- chatWithTutor transcript history level settled ;;
          let newModelMsg :=
            mkMessage (JS.toString (now' + 1)) model (Tutor.reply response)
              (Some (Tutor.vocabulary response))
              (Some (Tutor.translation response)) in
          _ <- setMessages (fun prev => prev ++ [newModelMsg]) ;;
          _ <- (if 0 <? JS.length (Tutor.vocabulary response)
                then onUpdateWordBank (Tutor.vocabulary response)
                else Eff.ret tt) ;;
          let fullAudioText :=
            Tutor.reply response ++ JS.lit " " ++ Tutor.nextQuestion response in
          playAudio fullAudioText)
         (fun error => Eff.ret tt))
      (setIsProcessing false).

(** The model message [handleVoiceResult] builds from the apology of
    [chatWithTutor]. *)
Definition apologyMessage (now' : Z) : Message :=
  mkMessage (JS.toString (now' + 1)) model (Tutor.reply Tutor.apology)
    (Some []) (Some (Tutor.translation Tutor.apology)).

(** The model messages of a transcript. *)
Definition modelMessages (s : State) : list Message :=
  filter (fun m => role m = model) (messages s).

End ChatInterface.

(* ===================================================================== *)
(** ** components/LessonView: the quiz flow                                *)
(* ===================================================================== *)

Module LessonView.

Record QuizQuestion := mkQuizQuestion {
  question : jsstring;
  options : list jsstring;
  correctAnswer : jsstring;
  quiz_explanation : jsstring      (* field [explanation] *)
}.

Record LessonContent := mkLessonContent {
  title : jsstring;
  concept : jsstring;
  explanation : jsstring;
  examples : list Word;
  quizQuestion : QuizQuestion
}.

Inductive QuizState := idle | listening | verifying | success | failure.

Record State := mkState {
  lesson : option LessonContent;
  loading : bool;
  quizState : QuizState;
  userAnswer : jsstring
}.

Record World := mkWorld {
  view : State;
  audio : Audio.System;
  sent : list Tutor.Request
}.

Definition setUserAnswer (a : jsstring) : Eff World unit :=
  Eff.modify (fun w =>
    mkWorld (mkState (lesson (view w)) (loading (view w)) (quizState (view w)) a)
      (audio w) (sent w)).

Definition setQuizState (q : QuizState) : Eff World unit :=
  Eff.modify (fun w =>
    mkWorld (mkState (lesson (view w)) (loading (view w)) q (userAnswer (view w)))
      (audio w) (sent w)).

Definition playAudio (text : jsstring) : Eff World unit :=
  Eff.modify (fun w =>
    mkWorld (view w) (Audio.step (Audio.Play text) (audio w)) (sent w)).

Section Quiz.

Variable toLowerCase toUpperCase : jsstring -> jsstring.

Definition validateAnswer (answer expected : jsstring)
    (settled : Tutor.TextSettled) : Eff World bool :=
  Eff.zoom sent (fun r w => mkWorld (view w) (audio w) r)
    (Tutor.validateAnswer toLowerCase toUpperCase answer expected settled).

Definition handleVoiceAnswer (transcript : jsstring)
    (settled : Tutor.TextSettled) : Eff World unit :=
  current <- Eff.get (fun w => lesson (view w)) ;;
  match current with
  | None => Eff.ret tt
  | Some lesson =>
      _ <- setUserAnswer transcript ;;
      _ <- setQuizState verifying ;;
      isCorrect <- validateAnswer transcript
                     (correctAnswer (quizQuestion lesson)) settled ;;
      if isCorrect then
        _ <- setQuizState success ;;
        playAudio (JS.lit "Sari! That is correct. Very good!")
      else
        _ <- setQuizState failure ;;
        playAudio (JS.lit "Not quite. The answer is "
                   ++ correctAnswer (quizQuestion lesson)
                   ++ JS.lit ". Try saying it.")
  end.

End Quiz.

Definition handleRetry : Eff World unit :=
  _ <- setQuizState idle ;; setUserAnswer [].

End LessonView.

(* ===================================================================== *)
(** ** components/VoiceControl: press-and-hold voice capture               *)
(* ===================================================================== *)

Module VoiceControl.

(** A recognition session is capturing until [stop()] is called on it, and
    then finishing until the engine delivers [end]. *)
Inductive Phase := capturing | stopping.

Record State := mkState {
  isListening : bool;
  recognitionRef : option nat          (* [recognitionRef.current] *)
}.

Record World := mkWorld {
  control : State;
  sessions : gmap nat Phase;   (* recognizers with a session in progress *)
  nextRecognition : nat;
  supported : bool;            (* a SpeechRecognition constructor exists *)
  canVibrate : bool;           (* [navigator.vibrate] *)
  vibrations : nat;
  alerts : list jsstring;
  transcripts : list jsstring; (* handed to [onResult] *)
  audio : Audio.System
}.

Definition initial (isSupported vibrates : bool) (a : Audio.System) : World :=
  {| control := {| isListening := false; recognitionRef := None |};
     sessions := ∅; nextRecognition := 0;
     supported := isSupported; canVibrate := vibrates; vibrations := 0;
     alerts := []; transcripts := []; audio := a |}.

Definition setControl (c : State) (w : World) : World :=
  mkWorld c (sessions w) (nextRecognition w) (supported w) (canVibrate w)
    (vibrations w) (alerts w) (transcripts w) (audio w).

Definition setSessions (m : gmap nat Phase) (w : World) : World :=
  mkWorld (control w) m (nextRecognition w) (supported w) (canVibrate w)
    (vibrations w) (alerts w) (transcripts w) (audio w).

Definition setIsListening (b : bool) : Eff World unit :=
  Eff.modify (fun w => setControl (mkState b (recognitionRef (control w))) w).

Definition setRecognitionRef (r : option nat) : Eff World unit :=
  Eff.modify (fun w => setControl (mkState (isListening (control w)) r) w).

Definition alert (msg : jsstring) : Eff World unit :=
  Eff.modify (fun w =>
    mkWorld (control w) (sessions w) (nextRecognition w) (supported w)
      (canVibrate w) (vibrations w) (alerts w ++ [msg]) (transcripts w) (audio w)).

Definition vibrate : Eff World unit :=
  Eff.modify (fun w =>
    mkWorld (control w) (sessions w) (nextRecognition w) (supported w)
      (canVibrate w) (S (vibrations w)) (alerts w) (transcripts w) (audio w)).

Definition onResult (transcript : jsstring) : Eff World unit :=
  Eff.modify (fun w =>
    mkWorld (control w) (sessions w) (nextRecognition w) (supported w)
      (canVibrate w) (vibrations w) (alerts w) (transcripts w ++ [transcript])
      (audio w)).

(** [stopAudio()] of the audio module. *)
Definition stopAudio : Eff World unit :=
  Eff.modify (fun w =>
    mkWorld (control w) (sessions w) (nextRecognition w) (supported w)
      (canVibrate w) (vibrations w) (alerts w) (transcripts w)
      (Audio.step Audio.Stop (audio w))).

(** *** The recognizer's side *)

(** [new SpeechRecognition()] *)
Definition newRecognition : Eff World nat :=
  fun w =>
    (Normal (nextRecognition w),
     mkWorld (control w) (sessions w) (S (nextRecognition w)) (supported w)
       (canVibrate w) (vibrations w) (alerts w) (transcripts w) (audio w)).

(** [recognition.start()]: a recognizer with a session in progress refuses
    with InvalidStateError; otherwise the engine starts a session, unless it
    [fails] for a reason of its own. *)
Definition recognition_start (rec : nat) (fails : option Exn) : Eff World unit :=
  active <- Eff.get (fun w => sessions w !! rec) ;;
  match active with
  | Some _ => Eff.throw InvalidStateError
  | None =>
      match fails with
      | Some e => Eff.throw e
      | None => Eff.modify (fun w => setSessions (<[rec := capturing]> (sessions w)) w)
      end
  end.

(** [recognition.stop()]: a capturing session starts finishing; ignored
    otherwise. The engine may also [fail]. *)
Definition recognition_stop (rec : nat) (fails : option Exn) : Eff World unit :=
  match fails with
  | Some e => Eff.throw e
  | None =>
      Eff.modify (fun w =>
        match sessions w !! rec with
        | Some capturing => setSessions (<[rec := stopping]> (sessions w)) w
        | _ => w
        end)
  end.

(** [recognition.abort()]: the session, if any, is dropped. *)
Definition recognition_abort (rec : nat) : Eff World unit :=
  Eff.modify (fun w => setSessions (delete rec (sessions w)) w).

(** *** The component *)

(** The callbacks installed on each recognizer. *)
Definition onresult (transcript : jsstring) : Eff World unit :=
  onResult transcript.

Definition onend : Eff World unit := setIsListening false.

Definition onerror (error : jsstring) : Eff World unit :=
  if bool_decide (error = JS.lit "no-speech") || bool_decide (error = JS.lit "aborted")
  then setIsListening false
  else
    _ <- setIsListening false ;;
    if bool_decide (error = JS.lit "not-allowed")
    then alert (JS.lit "Microphone permission denied. Please enable it in browser settings.")
    else Eff.ret tt.

(** The cleanup of the effect on [lang]. *)
Definition cleanup : Eff World unit :=
  r <- Eff.get (fun w => recognitionRef (control w)) ;;
  match r with
  | Some rec => _ <- recognition_abort rec ;; setRecognitionRef None
  | None => Eff.ret tt
  end.

(** The effect on [lang]. *)
Definition setup : Eff World unit :=
  has <- Eff.get supported ;;
  if has then
    rec <- newRecognition ;;
    setRecognitionRef (Some rec)
  else
    alert (JS.lit "Speech recognition not supported in this browser. Try Chrome or Safari.").

(** The test of the [catch] in [startListening]. *)
Definition alreadyStarted (e : Exn) : bool :=
  bool_decide (exn_name e = JS.lit "InvalidStateError")
  || match exn_message e with
     | Some m => JS.includes m (JS.lit "already started")
     | None => false
     end.

Definition startListening (fails : option Exn) : Eff World unit :=
  _ <- stopAudio ;;
  r <- Eff.get (fun w => recognitionRef (control w)) ;;
  match r with
  | Some rec =>
      listening <- Eff.get (fun w => isListening (control w)) ;;
      if listening then Eff.ret tt
      else
        Eff.tryCatch
          (_ <- recognition_start rec fails ;;
           _ <- setIsListening true ;;
           vib <- Eff.get canVibrate ;;
           if vib then vibrate else Eff.ret tt)
          (fun e => if alreadyStarted e then setIsListening true else Eff.ret tt)
  | None => Eff.ret tt
  end.

Definition stopListening (fails : option Exn) : Eff World unit :=
  r <- Eff.get (fun w => recognitionRef (control w)) ;;
  match r with
  | Some rec => Eff.tryCatch (recognition_stop rec fails) (fun _ => Eff.ret tt)
  | None => Eff.ret tt
  end.

(** What can happen to the component. [fails] is how the engine answers
    the call the handler makes, when it has a choice. *)
Inductive Event :=
| LangEffect                         (* mount, or [lang] changed *)
| Unmount
| Press (fails : option Exn)         (* onMouseDown, onTouchStart *)
| Release (fails : option Exn)       (* onMouseUp, onMouseLeave, onTouchEnd *)
| Recognized (rec : nat) (transcript : jsstring)
| Ended (rec : nat)
| Failed (rec : nat) (error : jsstring).

Definition handler (e : Event) : Eff World unit :=
  match e with
  | LangEffect => _ <- cleanup ;; setup
  | Unmount => cleanup
  | Press fails => startListening fails
  | Release fails => stopListening fails
  | Recognized rec transcript => onresult transcript
  | Ended rec =>
      _ <- Eff.modify (fun w => setSessions (delete rec (sessions w)) w) ;;
      onend
  | Failed rec error => onerror error
  end.

Definition step (e : Event) (w : World) : World := Eff.exec (handler e) w.

Definition run (es : list Event) (w : World) : World :=
  fold_left (fun acc e => step e acc) es w.

(** Every session in progress belongs to the recognizer the component
    holds. *)
Definition sessionsHeld (w : World) : Prop :=
  ∀ rec, is_Some (sessions w !! rec) → recognitionRef (control w) = Some rec.

End VoiceControl.

(* ===================================================================== *)
(** ** services/geminiService: decoding the synthesized audio              *)
(* ===================================================================== *)

Module AudioData.



Section Decode.

(** The host's [atob]: the binary string, one code unit per byte, or the
    exception for a malformed input. *)
Variable atob : jsstring -> Exn + jsstring.


End Decode.





End AudioData.

(* ===================================================================== *)
(** ** components/WordBank: the words grouped by category                  *)
(* ===================================================================== *)

Module WordBankView.

Section Grouping.

(** The property names an empty object literal inherits from
    [Object.prototype] (constructor, toString, ...): reading one of them
    from [grouped] yields a value that is truthy and has no [push]. *)
Variable inherited : jsstring -> bool.

(** [word.category || 'General'] *)
Definition displayCategory (word : Word) : jsstring :=
  match category word with
  | Some c => if JS.falsy c then JS.lit "General" else c
  | None => JS.lit "General"
  end.

(** The body of the [forEach] of [categorizedWords]. The order in which the
    keys of [grouped] are later enumerated is not represented. *)
Definition addWord (grouped : gmap jsstring (list Word)) (word : Word)
  : Exn + gmap jsstring (list Word) :=
  let cat := displayCategory word in
  match grouped !! cat with
  | Some group => inr (<[cat := group ++ [word]]> grouped)
  | None =>
      if inherited cat then inl TypeError
      else inr (<[cat := [word]]> grouped)
  end.

Fixpoint forEach (words : list Word) (grouped : gmap jsstring (list Word))
  : Exn + gmap jsstring (list Word) :=
  match words with
  | [] => inr grouped
  | word :: rest =>
      match addWord grouped word with
      | inl e => inl e
      | inr grouped' => forEach rest grouped'
      end
  end.

Definition categorizedWords (words : list Word)
  : Exn + gmap jsstring (list Word) :=
  forEach words ∅.

End Grouping.

(** The words a category shows, in the order of the bank. *)
Definition wordsOf (cat : jsstring) (words : list Word) : list Word :=
  filter (fun w => displayCategory w = cat) words.

End WordBankView.

(* ===================================================================== *)
(** ** components/LessonView: fetching the lesson                          *)
(* ===================================================================== *)

Module LessonEffect.

(** A call of [fetchLesson] suspended on [generateLesson], with the
    [mounted] flag of the effect that made it. *)
Record Fetch := mkFetch {
  fetch_level : UserLevel;
  mounted : bool
}.

Record World := mkWorld {
  lessonView : LessonView.World;
  app : App.State;
  fetches : list Fetch;             (* suspended fetches, oldest first *)
  lessonRequests : list UserLevel;  (* lesson requests sent *)
  timers : list jsstring            (* texts of the [playAudio] calls that
                                       [setTimeout] holds *)
}.

Definition initial (a : App.State) (au : Audio.System) : World :=
  {| lessonView :=
       LessonView.mkWorld (LessonView.mkState None true LessonView.idle []) au [];
     app := a; fetches := []; lessonRequests := []; timers := [] |}.

Definition setLessonView (f : LessonView.World -> LessonView.World)
  : Eff World unit :=
  Eff.modify (fun w =>
    mkWorld (f (lessonView w)) (app w) (fetches w) (lessonRequests w) (timers w)).

Definition setFetches (f : list Fetch -> list Fetch) : Eff World unit :=
  Eff.modify (fun w =>
    mkWorld (lessonView w) (app w) (f (fetches w)) (lessonRequests w) (timers w)).

Definition setLesson (data : LessonView.LessonContent) : Eff World unit :=
  setLessonView (fun v =>
    LessonView.mkWorld
      (LessonView.mkState (Some data) (LessonView.loading (LessonView.view v))
         (LessonView.quizState (LessonView.view v))
         (LessonView.userAnswer (LessonView.view v)))
      (LessonView.audio v) (LessonView.sent v)).

Definition setLoading (b : bool) : Eff World unit :=
  setLessonView (fun v =>
    LessonView.mkWorld
      (LessonView.mkState (LessonView.lesson (LessonView.view v)) b
         (LessonView.quizState (LessonView.view v))
         (LessonView.userAnswer (LessonView.view v)))
      (LessonView.audio v) (LessonView.sent v)).

Definition onUpdateWordBank (newWords : list Word) : Eff World unit :=
  Eff.modify (fun w =>
    mkWorld (lessonView w) (App.handleUpdateWordBank newWords (app w))
      (fetches w) (lessonRequests w) (timers w)).

(** [setTimeout(() => playAudio(text), 1000)] *)
Definition setTimeout_playAudio (text : jsstring) : Eff World unit :=
  Eff.modify (fun w =>
    mkWorld (lessonView w) (app w) (fetches w) (lessonRequests w)
      (timers w ++ [text])).

(** [generateLesson] from the moment its request settles: the [catch] logs
    and throws the error again. *)
Definition generateLesson (settled : Tutor.Settled LessonView.LessonContent)
  : Eff World LessonView.LessonContent :=
  Eff.tryCatch
    (match settled with
     | Tutor.Rejected e => Eff.throw e
     | Tutor.NoText => Eff.throw (Error (JS.lit "No response from AI"))
     | Tutor.BadJson => Eff.throw (Error (JS.lit "SyntaxError"))
     | Tutor.Parsed content => Eff.ret content
     end)
    (fun error => Eff.throw error).

(** [fetchLesson] up to its [await]. *)
Definition fetchLesson (level : UserLevel) : Eff World unit :=
  _ <- setLoading true ;;
  _ <- Eff.modify (fun w =>
         mkWorld (lessonView w) (app w) (fetches w)
           (lessonRequests w ++ [level]) (timers w)) ;;
  setFetches (fun fs => fs ++ [mkFetch level true]).

(** The cleanup of the effect: [mounted = false]. The flag of an effect
    that was cleaned up before is false already. *)
Definition cleanup : Eff World unit :=
  setFetches (map (fun f => mkFetch (fetch_level f) false)).

(** [fetchLesson] from the moment [generateLesson] settles, for the fetch
    whose flag reads [isMounted]. *)
Definition fetchLesson_resume (isMounted : bool)
    (settled : Tutor.Settled LessonView.LessonContent) : Eff World unit :=
  Eff.tryFinally
    (Eff.tryCatch
       (data <- generateLesson settled ;;
        if isMounted then
          _ <- setLesson data ;;
          _ <- onUpdateWordBank (LessonView.examples data) ;;
          setTimeout_playAudio
            (JS.lit "Let's learn about " ++ LessonView.title data
             ++ JS.lit ". " ++ LessonView.concept data)
        else Eff.ret tt)
       (fun err => Eff.ret tt))
    (if isMounted then setLoading false else Eff.ret tt).

(** What can happen to the view. The state of the component is kept across
    an [Unmount]: a later [LevelEffect] stands for the effect of a component
    that carries on from it. *)
Inductive Event :=
| LevelEffect (level : UserLevel)   (* mount, or [level] changed *)
| Unmount
| LessonSettles (k : nat) (settled : Tutor.Settled LessonView.LessonContent)
                                    (* the [k]-th suspended fetch resumes *)
| TimerFires.                       (* the oldest timer runs *)

Definition handler (e : Event) : Eff World unit :=
  match e with
  | LevelEffect level => _ <- cleanup ;; fetchLesson level
  | Unmount => cleanup
  | LessonSettles k settled =>
      fs <- Eff.get fetches ;;
      match fs !! k with
      | Some f =>
          _ <- setFetches (fun fs => take k fs ++ drop (S k) fs) ;;
          fetchLesson_resume (mounted f) settled
      | None => Eff.ret tt
      end
  | TimerFires =>
      ts <- Eff.get timers ;;
      match ts with
      | text :: rest =>
          _ <- Eff.modify (fun w =>
                 mkWorld (lessonView w) (app w) (fetches w) (lessonRequests w) rest) ;;
          setLessonView (Eff.exec (LessonView.playAudio text))
      | [] => Eff.ret tt
      end
  end.

Definition step (e : Event) (w : World) : World := Eff.exec (handler e) w.

Definition run (es : list Event) (w : World) : World :=
  fold_left (fun acc e => step e acc) es w.


End LessonEffect.

(* ===================================================================== *)
(** ** What the properties observe                                         *)
(* ===================================================================== *)

Module Observed.

(** Everything of a badge but its [unlocked] flag. *)
Definition badgeIdentity (b : Badge)
  : jsstring * jsstring * jsstring * jsstring * Z * BadgeType :=
  (id b, name b, icon b, description b, threshold b, type b).

(** The badge list of the application with the given flags for "Rookie" and
    "Scholar", "Chatter" locked. *)
Definition badgesWith (rookie scholar : bool) : list Badge :=
  [ mkBadge (JS.lit "1") (JS.lit "Rookie") [0xD83C; 0xDF31]%N
      (JS.lit "Learned first 10 words") rookie 10 words;
    mkBadge (JS.lit "2") (JS.lit "Chatter") [0xD83D; 0xDDE3; 0xFE0F]%N
      (JS.lit "Sent 10 messages") false 10 streak;
    mkBadge (JS.lit "3") (JS.lit "Scholar") [0xD83C; 0xDF93]%N
      (JS.lit "Completed 5 lessons") scholar 5 lessons ].

(** The ledger as the application keeps it from its initial state on. *)
Definition ledgerConsistent (s : App.State) : Prop :=
  badges (App.userProgress s)
    = badgesWith (10 <=? wordsLearned (App.userProgress s))
        (5 <=? lessonsCompleted (App.userProgress s))
  ∧ points (App.userProgress s) = 50 * lessonsCompleted (App.userProgress s)
  ∧ wordsLearned (App.userProgress s) = JS.length (App.wordBank s)
  ∧ 0 ≤ lessonsCompleted (App.userProgress s).


(** A text [playAudio] hands to the remote synthesis: normalized, not empty,
    and of three code units or more unless it holds Kannada script. *)
Definition sendable (cleanText : jsstring) : Prop :=
  cleanText ≠ []
  ∧ (∀ c, c ∈ cleanText → Audio.isMarkdown c = false ∧ Audio.isBracket c = false)
  ∧ (3 ≤ JS.length cleanText ∨ JS.hasKannada cleanText = true).

(** A group of the word bank drawer after more words were pushed onto it. *)
Definition extended (before : option (list Word)) (more : list Word)
  : option (list Word) :=
  match before, more with
  | None, [] => None
  | None, _ => Some more
  | Some group, _ => Some (group ++ more)
  end.

End Observed.

(* ===================================================================== *)
(** ** components/Dashboard and the conversation as a whole                *)
(* ===================================================================== *)

Module Dashboard.

Definition nextLevelPoints : Z := 500.

(** The number shown in "Earn ... more XP to reach the next milestone!":
    [nextLevelPoints - progress.points]. *)
Definition remainingXP (progress : UserProgress) : Z :=
  nextLevelPoints - points progress.

End Dashboard.

Module Conversation.

(** One spoken turn: the two clock readings, the transcript, and what the
    chat request comes to. *)
Record Turn := mkTurn {
  turn_now : Z;
  turn_now' : Z;
  turn_transcript : jsstring;
  turn_settled : Tutor.Settled Tutor.ChatResponse
}.

(** [handleVoiceResult] for a turn, run to its end. *)
Definition take (t : Turn) (w : ChatInterface.World) : ChatInterface.World :=
  Eff.exec
    (ChatInterface.handleVoiceResult (turn_now t) (turn_now' t)
       (turn_transcript t) (turn_settled t)) w.




End Conversation.

(* ===================================================================== *)
(** ** Sample data                                                         *)
(* ===================================================================== *)

Module Samples.

(** "namaskara", "hegiddira" and "haudu" in Kannada script. *)
Definition namaskara : Word :=
  mkWord [0x0CA8; 0x0CAE; 0x0CB8; 0x0CCD; 0x0C95; 0x0CBE; 0x0CB0]%N
    (JS.lit "namaskara") (JS.lit "hello") (Some (JS.lit "Greetings")).

Definition hegiddira : Word :=
  mkWord [0x0CB9; 0x0CC7; 0x0C97; 0x0CBF; 0x0CA6; 0x0CCD; 0x0CA6; 0x0CC0; 0x0CB0; 0x0CBE]%N
    (JS.lit "hegiddira") (JS.lit "how are you") (Some (JS.lit "Greetings")).

Definition haudu : Word :=
  mkWord [0x0CB9; 0x0CCC; 0x0CA6; 0x0CC1]%N
    (JS.lit "haudu") (JS.lit "yes") None.

(** A session of the application: two batches of vocabulary, the second
    word delivered again, a completed lesson. *)
Definition session : list App.Event :=
  [ App.LevelSelect BEGINNER;
    App.SetMode conversation;
    App.UpdateWordBank [namaskara; hegiddira];
    App.UpdateWordBank [haudu];
    App.UpdateWordBank [haudu; namaskara];
    App.Back;
    App.SetMode lesson;
    App.LessonComplete ].

(** Two calls of [playAudio] whose synthesis requests are both in flight
    before either settles with audio. *)
Definition overlappingPlays : list Audio.Event :=
  [ Audio.Play (kannada namaskara);
    Audio.Play (kannada haudu);
    Audio.TtsSettles 0 (Audio.TtsAudio true);
    Audio.TtsSettles 0 (Audio.TtsAudio true) ].

(** A browser with speech synthesis, before any audio. *)
Definition quiet : Audio.System :=
  Audio.mkSystem (Audio.initial true [JS.lit "en-US"; JS.lit "hi-IN"]) [].

(** The same browser while "haudu" is being played from the remote
    synthesis. *)
Definition sounding : Audio.System :=
  Audio.run [ Audio.Play (kannada haudu);
              Audio.TtsSettles 0 (Audio.TtsAudio true) ] quiet.


(** The word whose key is the single Kannada letter number [i]. *)
Definition letter (i : nat) : Word :=
  mkWord [(0x0C85 + N.of_nat i)%N] (JS.lit "letter") (JS.lit "letter") None.

(** Ten words delivered in three calls, of four, five and one words. *)
Definition tenWords : list App.Event :=
  [ App.UpdateWordBank (map letter (seq 0 4));
    App.UpdateWordBank (map letter (seq 4 5));
    App.UpdateWordBank [letter 9] ].

(** A conversation that has just been opened, on the quiet browser. *)
Definition conversationOpened : ChatInterface.World :=
  ChatInterface.mkWorld ChatInterface.initial
    (App.run [App.LevelSelect BEGINNER; App.SetMode conversation] App.initial)
    quiet [].

(** The chat request rejects with a network error. *)
Definition networkDown : Tutor.Settled Tutor.ChatResponse :=
  Tutor.Rejected (Error (JS.lit "Failed to fetch")).

(** A lesson whose quiz expects "haudu", loaded and waiting for an answer. *)
Definition lessonLoaded : LessonView.World :=
  LessonView.mkWorld
    (LessonView.mkState
       (Some (LessonView.mkLessonContent (JS.lit "Yes and no")
                (JS.lit "Answering a question") (JS.lit "Say haudu to agree.")
                [haudu]
                (LessonView.mkQuizQuestion (JS.lit "How do you say yes?")
                   [kannada haudu; kannada namaskara] (kannada haudu)
                   (JS.lit "haudu means yes"))))
       false LessonView.idle [])
    quiet [].

(** The voice control once mounted, idle, and while the button is held
    over a sounding playback. *)
Definition voiceIdle : VoiceControl.World :=
  VoiceControl.run [VoiceControl.LangEffect]
    (VoiceControl.initial true true quiet).

Definition voiceListening : VoiceControl.World :=
  VoiceControl.run [VoiceControl.LangEffect; VoiceControl.Press None]
    (VoiceControl.initial true true sounding).

(** The application after five completed lessons. *)
Definition fiveLessons : App.State :=
  Nat.iter 5 App.handleLessonComplete App.initial.





(** Names that every object inherits. *)
Definition inheritedNames (key : jsstring) : bool :=
  bool_decide (key ∈ [JS.lit "constructor"; JS.lit "toString"; JS.lit "valueOf";
                      JS.lit "hasOwnProperty"; JS.lit "__proto__"]).

(** A word whose category is the empty string. *)
Definition uncategorized : Word :=
  mkWord [0x0C87; 0x0CB2; 0x0CCD; 0x0CB2]%N (JS.lit "illa") (JS.lit "no")
    (Some []).


(** The lesson view just mounted at the beginner level, and the lesson the
    service may answer with. *)
Definition lessonRequested : LessonEffect.World :=
  LessonEffect.run [LessonEffect.LevelEffect BEGINNER]
    (LessonEffect.initial App.initial quiet).

Definition yesAndNo : LessonView.LessonContent :=
  LessonView.mkLessonContent (JS.lit "Yes and no")
    (JS.lit "Answering a question") (JS.lit "Say haudu to agree.")
    [haudu; uncategorized]
    (LessonView.mkQuizQuestion (JS.lit "How do you say yes?")
       [kannada haudu; kannada namaskara] (kannada haudu)
       (JS.lit "haudu means yes")).

End Samples.

(* ===================================================================== *)
(** * Properties                                                           *)
(* ===================================================================== *)

(* ===================================================================== *)
(** ** Badge evaluation                                                    *)
(* ===================================================================== *)

Section BadgeEvaluation.

Import App.

Implicit Types (p : UserProgress) (b : Badge) (s : State).

Lemma checkBadge_unlocked p b :
  unlocked b = true → checkBadge p b = b.
Proof. intros H. unfold checkBadge. by rewrite H. Qed.

(** What [checkBadge] does to a locked badge, one badge type at a time. *)
Lemma checkBadge_locked p b :
  unlocked b = false →
  checkBadge p b =
    match type b with
    | words => if threshold b <=? wordsLearned p then withUnlocked b else b
    | lessons => if threshold b <=? lessonsCompleted p then withUnlocked b else b
    | streak => b
    end.
Proof.
  intros H. unfold checkBadge. rewrite H.
  destruct (type b); simpl;
    repeat match goal with |- context [?x <=? ?y] => destruct (x <=? y) end;
    reflexivity.
Qed.

(** An evaluated badge is either the badge itself or its unlocked copy. *)
Lemma checkBadge_cases p b :
  checkBadge p b = b ∨ (unlocked b = false ∧ checkBadge p b = withUnlocked b).
Proof.
  destruct (unlocked b) eqn:H.
  - left. by apply checkBadge_unlocked.
  - rewrite (checkBadge_locked _ _ H).
    destruct (type b); repeat case_match; auto.
Qed.

(** Evaluation only reads the two counters of the ledger. *)
Lemma checkBadge_counters p p' b :
  wordsLearned p' = wordsLearned p →
  lessonsCompleted p' = lessonsCompleted p →
  checkBadge p' b = checkBadge p b.
Proof. intros Hw Hl. unfold checkBadge. by rewrite Hw, Hl. Qed.

Lemma checkBadge_idem p b :
  checkBadge p (checkBadge p b) = checkBadge p b.
Proof.
  destruct (checkBadge_cases p b) as [H | [_ H]]; rewrite H; [done |].
  by apply checkBadge_unlocked.
Qed.

Lemma checkBadges_lookup p i :
  checkBadges p !! i = checkBadge p <$> (badges p !! i).
Proof. unfold checkBadges. apply list_lookup_fmap. Qed.

(** How one event of the application moves the badge in slot [i]. *)
Lemma step_badge_lookup e s i :
  badges (userProgress (step e s)) !! i = badges (userProgress s) !! i
  ∨ ∃ p, badges (userProgress (step e s)) !! i
         = checkBadge p <$> (badges (userProgress s) !! i).
Proof.
  destruct e; simpl; auto.
  - unfold handleUpdateWordBank. case_match; simpl; auto.
    right. eexists. rewrite checkBadges_lookup. reflexivity.
  - right. eexists. rewrite checkBadges_lookup. reflexivity.
Qed.

(** A badge that evaluation cannot change stays where it is along any
    run of the application. *)
Lemma run_badge_fixed es s i b :
  (∀ p, checkBadge p b = b) →
  badges (userProgress s) !! i = Some b →
  badges (userProgress (run es s)) !! i = Some b.
Proof.
  intros Hfix. revert s. induction es as [| e es IH]; intros s Hb; [done |].
  apply IH.
  destruct (step_badge_lookup e s i) as [-> | [p ->]]; [done |].
  rewrite Hb. simpl. by rewrite Hfix.
Qed.

(** C6. Badge evaluation is idempotent: evaluating the ledger whose badge
    list is the result of a first evaluation gives that same badge list
    again. *)
Theorem checkBadges_idempotent p :
  checkBadges (reevaluate p) = checkBadges p.
Proof.
  unfold checkBadges at 1. simpl. unfold checkBadges.
  rewrite map_map. apply map_ext. intros b.
  rewrite (checkBadge_counters p (reevaluate p)) by reflexivity.
  apply checkBadge_idem.
Qed.

(** C5. Badge unlocking is monotone: a badge that is unlocked stays in its
    slot, unlocked and unchanged, after any sequence of events of the
    application (word additions, lesson completions and the rest). *)
Theorem badge_unlock_monotone es s i b
  (Hat : badges (userProgress s) !! i = Some b)
  (Hun : unlocked b = true) :
  ∃ b', badges (userProgress (run es s)) !! i = Some b'
        ∧ unlocked b' = true ∧ b' = b.
Proof.
  exists b. split; [| done].
  apply run_badge_fixed; [| done].
  intros p. by apply checkBadge_unlocked.
Qed.


(** The "Scholar" badge, unlocked by five lessons, through a further
    session. *)
Lemma badge_unlock_monotone_witness :
  ∃ b, badges (userProgress Samples.fiveLessons) !! 2%nat = Some b
       ∧ unlocked b = true
       ∧ ∃ b', badges (userProgress (run Samples.session Samples.fiveLessons)) !! 2%nat
               = Some b'
               ∧ unlocked b' = true ∧ b' = b.
Proof.
  eexists. split; [reflexivity |]. split; [reflexivity |].
  apply (badge_unlock_monotone Samples.session Samples.fiveLessons 2);
    reflexivity.
Defined.


(** The "Rookie" badge unlocks on the call that brings [wordsLearned] to
    ten, and not on the calls before it. *)
Example rookie_unlocks_at_ten :
  let rookie es := unlocked <$> (badges (userProgress (run es initial)) !! 0%nat) in
  wordsLearned (userProgress (run (take 2 Samples.tenWords) initial)) = 9
  ∧ rookie (take 2 Samples.tenWords) = Some false
  ∧ wordsLearned (userProgress (run Samples.tenWords initial)) = 10
  ∧ rookie Samples.tenWords = Some true.
Proof. by vm_compute. Qed.

End BadgeEvaluation.

(* ===================================================================== *)
(** ** Ledger rewards and the word bank                                    *)
(* ===================================================================== *)

Section LedgerAndWordBank.

Import App.

Implicit Types (s : State) (es : list Event) (w : Word).

Lemma run_cons e es s : run (e :: es) s = run es (step e s).
Proof. reflexivity. Qed.

Lemma run_app es1 es2 s : run (es1 ++ es2) s = run es2 (run es1 s).
Proof. unfold run. apply fold_left_app. Qed.

Lemma handleLessonComplete_counters s :
  lessonsCompleted (userProgress (handleLessonComplete s))
    = lessonsCompleted (userProgress s) + 1
  ∧ points (userProgress (handleLessonComplete s))
    = points (userProgress s) + 50.
Proof. split; reflexivity. Qed.

Lemma step_points e s :
  points (userProgress s) ≤ points (userProgress (step e s)).
Proof.
  destruct e; simpl; try lia.
  unfold handleUpdateWordBank. case_match; simpl; lia.
Qed.

Lemma run_points es s :
  points (userProgress s) ≤ points (userProgress (run es s)).
Proof.
  revert s. induction es as [| e es IH]; intros s; [simpl; lia |].
  rewrite run_cons. etrans; [apply (step_points e) | apply IH].
Qed.

(** C4. Completing a lesson [n] times adds exactly [n] to
    [lessonsCompleted] and exactly [50 * n] to [points], from any state; and
    no event of the application, alone or in sequence, lowers [points]. *)
Theorem lesson_complete_rewards (n : nat) s :
  (lessonsCompleted (userProgress (Nat.iter n handleLessonComplete s))
     = lessonsCompleted (userProgress s) + Z.of_nat n
   ∧ points (userProgress (Nat.iter n handleLessonComplete s))
     = points (userProgress s) + 50 * Z.of_nat n)
  ∧ (∀ e s', points (userProgress s') ≤ points (userProgress (step e s')))
  ∧ (∀ es s', points (userProgress s') ≤ points (userProgress (run es s'))).
Proof.
  split; [| split; [apply step_points | apply run_points]].
  induction n as [| n [IHl IHp]]; [simpl; lia |].
  rewrite Nat.iter_succ.
  destruct (handleLessonComplete_counters (Nat.iter n handleLessonComplete s))
    as [-> ->].
  lia.
Qed.

(** The accepted candidates are the candidates whose key no entry of the
    bank carries. *)
Lemma filtered_spec prev newWords w :
  w ∈ filtered prev newWords ↔
  w ∈ newWords ∧ ∀ entry, entry ∈ prev → kannada entry ≠ kannada w.
Proof.
  unfold filtered, existing. rewrite list_elem_of_filter, elem_of_list_to_set.
  change (map kannada prev) with (kannada <$> prev).
  rewrite list_elem_of_fmap. split.
  - intros [Hnot Hin]. split; [done |]. intros entry He Heq. apply Hnot. eauto.
  - intros [Hin Hnot]. split; [| done]. intros (entry & Heq & He).
    by apply (Hnot entry).
Qed.


Lemma handleUpdateWordBank_wordBank newWords s :
  wordBank (handleUpdateWordBank newWords s)
    = filtered (wordBank s) newWords ++ wordBank s.
Proof. unfold handleUpdateWordBank. by case_match. Qed.

Lemma handleUpdateWordBank_wordsLearned newWords s :
  wordsLearned (userProgress (handleUpdateWordBank newWords s))
    = wordsLearned (userProgress s) + JS.length (filtered (wordBank s) newWords).
Proof.
  unfold handleUpdateWordBank. case_match eqn:Hpos; simpl; [done |].
  apply Z.ltb_ge in Hpos. unfold JS.length in *. lia.
Qed.








End LedgerAndWordBank.

(* ===================================================================== *)
(** ** Audio playback                                                      *)
(* ===================================================================== *)

Section AudioPlayback.

Import Audio.

Implicit Types (w : World) (text : jsstring).

Lemma stopAudio_normal w : stopAudio w = (Normal tt, Eff.exec stopAudio w).
Proof.
  unfold Eff.exec. destruct w as [[c|] [src|] oc pl n [] vs sp rq]; reflexivity.
Qed.

Lemma speakWithBrowser_normal text w :
  speakWithBrowser text w = (Normal tt, Eff.exec (speakWithBrowser text) w).
Proof.
  unfold Eff.exec. destruct w as [cc cs oc pl n [] vs sp rq]; reflexivity.
Qed.

(** [playAudio] up to its suspension, spelled out on the store. *)
Lemma playAudio_unfold text w :
  playAudio text w =
    let w' := Eff.exec stopAudio w in
    let cleanText := cleanTextForTTS text in
    if JS.falsy cleanText then (Normal None, w')
    else if (JS.length cleanText <? 3) && negb (JS.hasKannada cleanText)
         then (Normal None, Eff.exec (speakWithBrowser cleanText) w')
         else (Normal (Some cleanText), setRequests (requests w' ++ [cleanText]) w').
Proof.
  unfold playAudio, Eff.bind at 1. rewrite stopAudio_normal. cbv zeta.
  destruct (JS.falsy (cleanTextForTTS text)); [reflexivity |].
  unfold Eff.tryCatch, Eff.bind.
  destruct ((JS.length (cleanTextForTTS text) <? 3)
            && negb (JS.hasKannada (cleanTextForTTS text))); simpl.
  - by rewrite speakWithBrowser_normal.
  - reflexivity.
Qed.

(** [stopAudio] only touches the globals, the sounding sources, the open
    contexts and the speech queue. *)
Lemma stopAudio_requests w :
  requests (Eff.exec stopAudio w) = requests w.
Proof. destruct w as [[c|] [src|] oc pl n [] vs sp rq]; reflexivity. Qed.

Lemma stopAudio_idle w :
  currentAudioContext w = None → currentSource w = None → speaking w = [] →
  Eff.exec stopAudio w = w.
Proof.
  destruct w as [cc cs oc pl n [] vs sp rq]; simpl; intros -> -> ->; reflexivity.
Qed.

(** C3, as the code has it. When the text is empty after normalization,
    [playAudio] returns without suspending, sends no synthesis request and
    queues no utterance; what it does to the audio state is what [stopAudio]
    does, so a sounding playback is stopped, and the state is unchanged when
    nothing is held or queued. *)
Theorem playAudio_empty_text text w
  (Hempty : cleanTextForTTS text = []) :
  playAudio text w = (Normal None, Eff.exec stopAudio w)
  ∧ requests (Eff.exec (playAudio text) w) = requests w
  ∧ (∀ pending, step (Play text) (mkSystem w pending) = step Stop (mkSystem w pending))
  ∧ (currentAudioContext w = None → currentSource w = None → speaking w = [] →
     Eff.exec (playAudio text) w = w).
Proof.
  assert (Hplay : playAudio text w = (Normal None, Eff.exec stopAudio w)).
  { rewrite playAudio_unfold. cbv zeta. by rewrite Hempty. }
  assert (Hexec : Eff.exec (playAudio text) w = Eff.exec stopAudio w).
  { unfold Eff.exec at 1. by rewrite Hplay. }
  split; [exact Hplay |]. rewrite Hexec.
  split; [apply stopAudio_requests |]. split; [| apply stopAudio_idle].
  intros pending. simpl. by rewrite Hplay.
Qed.

(** A text of markup only, played while a playback is sounding. *)
Lemma playAudio_empty_text_witness :
  cleanTextForTTS (JS.lit "**") = []
  ∧ requests (Eff.exec (playAudio (JS.lit "**")) (world Samples.sounding))
    = requests (world Samples.sounding).
Proof.
  assert (H : cleanTextForTTS (JS.lit "**") = []) by reflexivity.
  split; [exact H |].
  exact (proj1 (proj2 (playAudio_empty_text (JS.lit "**") (world Samples.sounding) H))).
Defined.

(** C3 as stated fails: the text is empty after normalization, and the call
    silences the playback that was sounding. *)
Lemma playAudio_empty_text_counterexample :
  cleanTextForTTS (JS.lit "**") = []
  ∧ activePlaybacks (world Samples.sounding) = 1%nat
  ∧ Eff.exec (playAudio (JS.lit "**")) (world Samples.sounding)
    ≠ world Samples.sounding.
Proof.
  split; [reflexivity |]. split; [by vm_compute |].
  intros Heq. apply (f_equal currentSource) in Heq.
  vm_compute in Heq. discriminate.
Qed.

(** C8 at the failing input: two overlapping calls end with two sounding
    sources; the context of the first call is open but no global refers to
    it any more, and a later [stopAudio] leaves its source sounding. *)
Theorem overlapping_plays_leak :
  let s := run Samples.overlappingPlays Samples.quiet in
  activePlaybacks (world s) = 2%nat
  ∧ map_to_list (playing (world s)) = [(3, 2); (1, 0)]%nat
  ∧ elements (openContexts (world s)) = [2; 0]%nat
  ∧ currentAudioContext (world s) = Some 2%nat
  ∧ currentSource (world s) = Some 3%nat
  ∧ map_to_list (playing (world (step Stop s))) = [(1, 0)]%nat
  ∧ elements (openContexts (world (step Stop s))) = [0%nat].
Proof. by vm_compute. Qed.

Lemma playing_none_empty (pl : gmap nat nat) :
  (∀ src ctx, pl !! src = Some ctx → False) → pl = ∅.
Proof.
  intros H. apply map_empty. intros src.
  destruct (pl !! src) eqn:E; [by destruct (H _ _ E) | done].
Qed.

Lemma close_silences (pl : gmap nat nat) c :
  (∀ src ctx, pl !! src = Some ctx → c = ctx) →
  filter (fun kv : nat * nat => kv.2 ≠ c) pl = ∅.
Proof.
  intros H. apply map_empty. intros src.
  apply map_lookup_filter_None. right. intros ctx E. simpl.
  intros Hne. apply Hne. symmetry. by apply (H src).
Qed.

Lemma stopAudio_releases w : singleSlot w → released (Eff.exec stopAudio w).
Proof.
  intros (Hctx & Hsrc & Hact & Hsp).
  destruct w as [cc cs oc pl n has vs sp rq]. simpl in *.
  assert (Hq : (if has then @nil Utterance else sp) = []).
  { destruct has; [done | by apply Hsp]. }
  destruct cc as [c|].
  - assert (Hoc : oc ∖ {[c]} = ∅).
    { apply set_eq. intros x. split; [| set_solver].
      intros Hx. apply elem_of_difference in Hx as [Hin Hne].
      specialize (Hctx x Hin). set_solver. }
    assert (Hpl : ∀ src ctx, pl !! src = Some ctx → c = ctx).
    { intros src ctx E. specialize (Hsrc _ _ E). congruence. }
    destruct cs as [src|], has; unfold released, Eff.exec; simpl;
      rewrite ?Hoc, ?Hq; repeat split; try done;
      apply close_silences; try done;
      intros s0 ctx E; apply lookup_delete_Some in E as [_ E]; eauto.
  - assert (Hoc : oc = ∅).
    { apply set_eq. intros x. split; [| set_solver]. intros Hx.
      by specialize (Hctx x Hx). }
    assert (Hpl : pl = ∅).
    { apply playing_none_empty. intros src ctx E. by specialize (Hsrc _ _ E). }
    subst. destruct cs as [src|], has; unfold released, Eff.exec; simpl;
      rewrite ?Hq; repeat split; try done; by rewrite delete_empty.
Qed.

Lemma only_context (n ctx : nat) : ctx ∈ ({[n]} ∪ ∅ : gset nat) → ctx = n.
Proof.
  intros H. apply elem_of_union in H as [H | H].
  - by apply elem_of_singleton in H.
  - by apply elem_of_empty in H.
Qed.

Lemma speakWithBrowser_released text w :
  released w → singleSlot (Eff.exec (speakWithBrowser text) w).
Proof.
  intros (Hcc & Hcs & Hoc & Hpl & Hsp).
  destruct w as [cc cs oc pl n has vs sp rq]. simpl in *. subst.
  destruct has; unfold singleSlot, Eff.exec, activePlaybacks; simpl;
    repeat split; try done; try set_solver; rewrite ?map_size_empty; simpl; lia.
Qed.

Lemma playAudio_resume_released cleanText response w :
  released w → singleSlot (Eff.exec (playAudio_resume cleanText response) w).
Proof.
  intros Hrel. destruct response as [e | | []].
  - apply (speakWithBrowser_released cleanText w Hrel).
  - apply (speakWithBrowser_released cleanText w Hrel).
  - destruct Hrel as (Hcc & Hcs & Hoc & Hpl & Hsp).
    destruct w as [cc cs oc pl n has vs sp rq]. simpl in *. subst.
    unfold singleSlot, Eff.exec, activePlaybacks. simpl. repeat split.
    + intros ctx Hc. by apply only_context in Hc as ->.
    + intros src ctx E. apply lookup_insert_Some in E as [[_ <-] | [_ E]]; done.
    + rewrite insert_empty, map_size_singleton. simpl. lia.
  - destruct Hrel as (Hcc & Hcs & Hoc & Hpl & Hsp).
    destruct w as [cc cs oc pl n has vs sp rq]. simpl in *. subst.
    destruct has; unfold singleSlot, Eff.exec, activePlaybacks; simpl;
      repeat split; try done; rewrite ?map_size_empty; simpl; try lia;
      intros ctx Hc; by apply only_context in Hc as ->.
Qed.

Lemma released_requests w r : released w → released (setRequests r w).
Proof. by intros H. Qed.

Lemma released_singleSlot w : released w → singleSlot w.
Proof.
  intros (Hcc & Hcs & Hoc & Hpl & Hsp).
  unfold singleSlot, activePlaybacks. rewrite Hoc, Hpl, Hsp, map_size_empty.
  repeat split; try done; simpl; lia.
Qed.

Lemma playToCompletion_singleSlot text response w :
  singleSlot w → singleSlot (Eff.exec (playToCompletion text response) w).
Proof.
  intros Hw. apply stopAudio_releases in Hw.
  unfold playToCompletion, Eff.exec, Eff.bind. rewrite playAudio_unfold. cbv zeta.
  destruct (JS.falsy (cleanTextForTTS text)); [by apply released_singleSlot |].
  destruct ((JS.length (cleanTextForTTS text) <? 3)
            && negb (JS.hasKannada (cleanTextForTTS text))).
  - by apply speakWithBrowser_released.
  - apply playAudio_resume_released. by apply released_requests.
Qed.
Lemma initial_singleSlot hasSpeech installed :
  singleSlot (initial hasSpeech installed).
Proof. by apply released_singleSlot. Qed.

(** Calls of [playAudio] that do not overlap keep the slot single: however
    many calls, whatever the texts and whatever the synthesis service
    answers, at most one playback can be heard afterwards and every open
    context is the current one. *)
Lemma sequential_plays_singleSlot (calls : list (jsstring * TtsOutcome)) w :
  singleSlot w →
  singleSlot
    (fold_left (fun acc call => Eff.exec (playToCompletion call.1 call.2) acc)
       calls w).
Proof.
  revert w. induction calls as [| [text response] calls IH]; intros w Hw; [done |].
  simpl. apply IH. by apply playToCompletion_singleSlot.
Qed.

End AudioPlayback.

(* ===================================================================== *)
(** ** The conversation flow                                               *)
(* ===================================================================== *)

Section Conversation.

Import ChatInterface.

Implicit Types (w : World) (transcript : jsstring).

(** [chatWithTutor] never lets an exception out; a failed request is
    answered with the apology. *)
Lemma chatWithTutor_failure message history level settled sent0 :
  Tutor.isFailure settled = true →
  fst (Tutor.chatWithTutor message history level settled sent0)
    = Normal Tutor.apology.
Proof. destruct settled; simpl; [done | done | done | discriminate]. Qed.

(** C2, as the code has it. When the chat request fails, [chatWithTutor]
    answers with its canned apology, so [handleVoiceResult] appends the user
    message and one model message carrying the apology and has it played;
    the ledger and the word bank are unchanged, the processing flag is
    cleared and no exception escapes. *)
Theorem chat_failure_appends_apology now now' transcript settled w
  (Hspoken : JS.falsy (JS.trim transcript) = false)
  (Hfail : Tutor.isFailure settled = true) :
  let w' := Eff.exec (handleVoiceResult now now' transcript settled) w in
  messages (chat w')
    = messages (chat w)
      ++ [mkMessage (JS.toString now) user transcript None None;
          apologyMessage now']
  ∧ App.userProgress (app w') = App.userProgress (app w)
  ∧ App.wordBank (app w') = App.wordBank (app w)
  ∧ isProcessing (chat w') = false
  ∧ audio w'
    = Audio.step
        (Audio.Play (Tutor.reply Tutor.apology ++ JS.lit " "
                     ++ Tutor.nextQuestion Tutor.apology))
        (audio w)
  ∧ Eff.raises (handleVoiceResult now now' transcript settled) w = false.
Proof.
  unfold Eff.exec, Eff.raises, handleVoiceResult. rewrite Hspoken.
  destruct settled as [e | | | r]; [| | | discriminate Hfail];
    simpl; rewrite <- !app_assoc; repeat split; reflexivity.
Qed.

(** A spoken "hello" while the network is down. *)
Lemma chat_failure_appends_apology_witness :
  JS.falsy (JS.trim (JS.lit "hello")) = false
  ∧ Tutor.isFailure Samples.networkDown = true
  ∧ isProcessing
      (chat (Eff.exec (handleVoiceResult 1700000000000 1700000000900
                         (JS.lit "hello") Samples.networkDown)
               Samples.conversationOpened)) = false.
Proof.
  split; [reflexivity |]. split; [reflexivity |].
  exact (proj1 (proj2 (proj2 (proj2
    (chat_failure_appends_apology 1700000000000 1700000000900 (JS.lit "hello")
       Samples.networkDown Samples.conversationOpened eq_refl eq_refl))))).
Defined.

(** C2 as stated fails: the request fails, and the transcript gains a model
    message. *)
Lemma chat_failure_counterexample :
  Tutor.isFailure Samples.networkDown = true
  ∧ ¬ (modelMessages
         (chat (Eff.exec (handleVoiceResult 1700000000000 1700000000900
                            (JS.lit "hello") Samples.networkDown)
                  Samples.conversationOpened))
       = modelMessages (chat Samples.conversationOpened)).
Proof.
  split; [reflexivity |].
  intros Heq. apply (f_equal List.length) in Heq.
  vm_compute in Heq. discriminate.
Qed.

End Conversation.

(* ===================================================================== *)
(** ** Answer validation and the quiz                                      *)
(* ===================================================================== *)

Section AnswerValidation.

(** The host's case conversions; nothing below depends on what they do. *)
Variable toLowerCase toUpperCase : jsstring → jsstring.

Lemma startsWith_refl (s : jsstring) : JS.startsWith s s = true.
Proof. induction s as [| c s IH]; [done |]. simpl. by rewrite N.eqb_refl. Qed.

Lemma includes_refl (s : jsstring) : JS.includes s s = true.
Proof. destruct s; simpl; [done |]. by rewrite N.eqb_refl, startsWith_refl. Qed.

(** C9. When the lowercased answer contains the lowercased expected answer,
    [validateAnswer] returns true and sends nothing, whatever the service
    would have answered; so it does for the answer "haudu" against itself.
    When the containment fails and the remote request throws,
    [validateAnswer] returns false, having sent that one request. *)
Theorem validateAnswer_local_first userAnswer correctAnswer sent0 :
  (JS.includes (toLowerCase userAnswer) (toLowerCase correctAnswer) = true →
   ∀ settled,
     Tutor.validateAnswer toLowerCase toUpperCase userAnswer correctAnswer
       settled sent0 = (Normal true, sent0))
  ∧ (∀ settled,
       Tutor.validateAnswer toLowerCase toUpperCase
         (kannada Samples.haudu) (kannada Samples.haudu) settled sent0
       = (Normal true, sent0))
  ∧ (JS.includes (toLowerCase userAnswer) (toLowerCase correctAnswer) = false →
     ∀ e,
       Tutor.validateAnswer toLowerCase toUpperCase userAnswer correctAnswer
         (Tutor.TextRejected e) sent0
       = (Normal false,
          sent0 ++ [Tutor.ValidationRequest
                      (Tutor.validationPrompt userAnswer correctAnswer)])).
Proof.
  unfold Tutor.validateAnswer. split; [| split].
  - intros -> settled. reflexivity.
  - intros settled. by rewrite includes_refl.
  - intros -> e. reflexivity.
Qed.

(** In the lesson view, an answer that contains the expected one moves the
    quiz from [verifying] to [success] without a remote request. *)
Lemma handleVoiceAnswer_local_success transcript settled lesson w :
  LessonView.lesson (LessonView.view w) = Some lesson →
  JS.includes (toLowerCase transcript)
    (toLowerCase (LessonView.correctAnswer (LessonView.quizQuestion lesson))) = true →
  let w' := Eff.exec (LessonView.handleVoiceAnswer toLowerCase toUpperCase
                        transcript settled) w in
  LessonView.quizState (LessonView.view w') = LessonView.success
  ∧ LessonView.userAnswer (LessonView.view w') = transcript
  ∧ LessonView.sent w' = LessonView.sent w.
Proof.
  intros Hlesson Hlocal.
  unfold Eff.exec, LessonView.handleVoiceAnswer, LessonView.validateAnswer,
    Tutor.validateAnswer, Eff.bind, Eff.get, Eff.zoom.
  rewrite Hlesson. simpl. rewrite Hlocal. simpl. done.
Qed.

End AnswerValidation.

(** An answer in Latin script with other capitals than the expected one, and
    an answer that does not contain it while the service is unreachable. *)
Lemma validateAnswer_local_first_witness :
  Tutor.validateAnswer JS.asciiToLowerCase JS.asciiToUpperCase
    (JS.lit "Haudu, Sir") (JS.lit "haudu") (Tutor.TextIs None) []
  = (Normal true, [])
  ∧ Tutor.validateAnswer JS.asciiToLowerCase JS.asciiToUpperCase
      (JS.lit "illa") (JS.lit "haudu")
      (Tutor.TextRejected (Error (JS.lit "Failed to fetch"))) []
    = (Normal false,
       [Tutor.ValidationRequest
          (Tutor.validationPrompt (JS.lit "illa") (JS.lit "haudu"))]).
Proof.
  split.
  - apply (proj1 (validateAnswer_local_first JS.asciiToLowerCase
                    JS.asciiToUpperCase (JS.lit "Haudu, Sir") (JS.lit "haudu") [])).
    reflexivity.
  - apply (proj2 (proj2 (validateAnswer_local_first JS.asciiToLowerCase
                    JS.asciiToUpperCase (JS.lit "illa") (JS.lit "haudu") []))).
    reflexivity.
Defined.

(** The quiz of the sample lesson, answered with the expected word. *)
Example quiz_haudu_succeeds :
  let w' := Eff.exec (LessonView.handleVoiceAnswer JS.asciiToLowerCase
                        JS.asciiToUpperCase (kannada Samples.haudu)
                        (Tutor.TextRejected (Error (JS.lit "Failed to fetch"))))
              Samples.lessonLoaded in
  LessonView.quizState (LessonView.view w') = LessonView.success
  ∧ LessonView.sent w' = [].
Proof. by vm_compute. Qed.

(* ===================================================================== *)
(** ** Voice capture                                                       *)
(* ===================================================================== *)

Section VoiceCapture.

Import VoiceControl.

Implicit Types (w : World) (e : Event).

(** A map whose keys are all the same key has at most one entry. *)
Lemma size_at_most_one (m : gmap nat Phase) (held : option nat) :
  (∀ rec, is_Some (m !! rec) → held = Some rec) → (size m ≤ 1)%nat.
Proof.
  intros Hheld. rewrite <- size_dom.
  destruct held as [r|].
  - transitivity (size ({[r]} : gset nat)); [| rewrite size_singleton; lia].
    apply subseteq_size. intros rec Hrec. apply elem_of_dom in Hrec.
    apply Hheld in Hrec. apply elem_of_singleton. congruence.
  - assert (dom m = (∅ : gset nat)) as ->; [| rewrite size_empty; lia].
    apply set_eq. intros rec. split; [| by intros ?%elem_of_empty].
    intros Hrec. apply elem_of_dom in Hrec. by apply Hheld in Hrec.
Qed.

Lemma initial_sessionsHeld isSupported vibrates a :
  sessionsHeld (initial isSupported vibrates a).
Proof. intros rec [ph Hph]. simpl in Hph. by rewrite lookup_empty in Hph. Qed.

(** Unfold a handler of the component down to the store. *)
Ltac voice_unfold :=
  unfold step, handler, startListening, stopListening, cleanup, setup,
    onresult, onend, onerror, onResult, stopAudio, recognition_start,
    recognition_stop, recognition_abort, setIsListening, setRecognitionRef,
    newRecognition, alert, vibrate, Eff.exec, Eff.raises, Eff.bind,
    Eff.tryCatch, Eff.get, Eff.modify, Eff.ret, Eff.throw;
  simpl.

Lemma step_sessionsHeld e w : sessionsHeld w → sessionsHeld (step e w).
Proof.
  unfold sessionsHeld. intros Hheld.
  destruct w as [[listening ref] ss n sup vib vs al ts a].
  destruct e as [| | fails | fails | rec t | rec | rec err]; simpl in Hheld.
  - (* the effect: abort the held recognizer, then make a new one *)
    destruct ref as [r|], sup; voice_unfold; intros rec Hrec;
      try apply lookup_delete_is_Some in Hrec as [Hne Hrec];
      apply Hheld in Hrec; congruence.
  - destruct ref as [r|]; voice_unfold; intros rec Hrec;
      try apply lookup_delete_is_Some in Hrec as [Hne Hrec];
      apply Hheld in Hrec; congruence.
  - (* press *)
    destruct ref as [r|]; voice_unfold; [| done].
    destruct listening; simpl; [done |].
    destruct (ss !! r) eqn:Hr; simpl; [done |].
    destruct fails as [ex|]; simpl.
    + destruct (alreadyStarted ex); simpl; done.
    + destruct vib; simpl; intros rec Hrec;
        apply lookup_insert_is_Some in Hrec as [-> | [_ Hrec]]; auto.
  - (* release *)
    destruct ref as [r|]; voice_unfold; [| done].
    destruct fails as [ex|]; simpl; [done |].
    destruct (ss !! r) as [[]|] eqn:Hr; simpl; try done.
    intros rec Hrec. apply lookup_insert_is_Some in Hrec as [-> | [_ Hrec]]; auto.
  - voice_unfold. done.
  - voice_unfold. intros r Hr. apply lookup_delete_is_Some in Hr as [_ Hr]. auto.
  - voice_unfold. repeat case_match; simpl; done.
Qed.

Lemma run_sessionsHeld es w : sessionsHeld w → sessionsHeld (run es w).
Proof.
  revert w. induction es as [| e es IH]; intros w Hw; [done |].
  simpl. apply IH. by apply step_sessionsHeld.
Qed.

(** C10. From the initial state and along any sequence of events at most
    one recognition session is in progress. A start request while the
    component is listening raises nothing and leaves the component and the
    recognizer as they are: all it does is stop the audio. A stop request
    while the component is not listening raises nothing, whatever the engine
    does with the call, and leaves the component as it is; when moreover the
    recognizer held has no session in progress, nothing changes at all. *)
Theorem voice_capture_guarded :
  (∀ es isSupported vibrates a,
     (size (sessions (run es (initial isSupported vibrates a))) ≤ 1)%nat)
  ∧ (∀ w fails,
       isListening (control w) = true →
       Eff.raises (startListening fails) w = false
       ∧ Eff.exec (startListening fails) w = Eff.exec stopAudio w
       ∧ control (Eff.exec (startListening fails) w) = control w
       ∧ sessions (Eff.exec (startListening fails) w) = sessions w)
  ∧ (∀ w fails,
       isListening (control w) = false →
       Eff.raises (stopListening fails) w = false
       ∧ control (Eff.exec (stopListening fails) w) = control w
       ∧ ((∀ rec, recognitionRef (control w) = Some rec → sessions w !! rec = None) →
          Eff.exec (stopListening fails) w = w)).
Proof.
  split; [| split].
  - intros es isSupported vibrates a.
    apply (size_at_most_one _
             (recognitionRef (control (run es (initial isSupported vibrates a))))).
    apply run_sessionsHeld, initial_sessionsHeld.
  - intros [[listening ref] ss n sup vib vs al ts a] fails Hl.
    simpl in Hl. subst listening.
    destruct ref as [r|]; voice_unfold; done.
  - intros [[listening ref] ss n sup vib vs al ts a] fails Hl.
    simpl in Hl. subst listening.
    destruct ref as [r|]; voice_unfold; [| done].
    destruct fails as [ex|]; simpl; [done |].
    repeat split.
    + by destruct (ss !! r) as [[]|].
    + intros Hidle. by rewrite (Hidle r eq_refl).
Qed.

(** A press while listening, and a release while idle. *)
Lemma voice_capture_guarded_witness :
  (isListening (control Samples.voiceListening) = true
   ∧ Eff.exec (startListening None) Samples.voiceListening
     = Eff.exec stopAudio Samples.voiceListening)
  ∧ (isListening (control Samples.voiceIdle) = false
     ∧ Eff.exec (stopListening None) Samples.voiceIdle = Samples.voiceIdle).
Proof.
  destruct voice_capture_guarded as (_ & Hstart & Hstop).
  split.
  - split; [reflexivity |].
    apply (Hstart Samples.voiceListening None). reflexivity.
  - split; [reflexivity |].
    apply (Hstop Samples.voiceIdle None); [reflexivity |].
    intros rec Href. vm_compute in Href. injection Href as <-. reflexivity.
Defined.

End VoiceCapture.

(* ===================================================================== *)
(** ** More on the ledger and the word bank                                *)
(* ===================================================================== *)

Section LedgerInvariants.

Import App.

Implicit Types (s : State) (es : list Event) (w : Word).

Lemma state_eta s :
  mkState (mode s) (level s) (wordBank s) (isWordBankOpen s) (userProgress s) = s.
Proof. by destruct s. Qed.

(** Candidates that the bank all knows are all turned down. *)
Lemma filtered_known prev newWords :
  (∀ w, w ∈ newWords → ∃ entry, entry ∈ prev ∧ kannada entry = kannada w) →
  filtered prev newWords = [].
Proof.
  intros Hknown. destruct (filtered prev newWords) as [| w ws] eqn:Hf; [done |].
  assert (Hw : w ∈ filtered prev newWords) by (rewrite Hf; left).
  apply filtered_spec in Hw as [Hin Hnew].
  destruct (Hknown w Hin) as (entry & He & Heq). by destruct (Hnew entry He).
Qed.

Lemma handleUpdateWordBank_rejected newWords s :
  filtered (wordBank s) newWords = [] → handleUpdateWordBank newWords s = s.
Proof.
  intros Hf. unfold handleUpdateWordBank. rewrite Hf. simpl.
  unfold setWordBank. simpl. apply state_eta.
Qed.

(** X1. Delivering words again changes nothing: a call whose candidates all
    carry keys the bank already holds leaves the whole state as it is (no
    count, no badge evaluation), and so does repeating any call, or calling
    with no candidates. *)
Theorem handleUpdateWordBank_redelivery newWords s :
  ((∀ w, w ∈ newWords → ∃ entry, entry ∈ wordBank s ∧ kannada entry = kannada w) →
   handleUpdateWordBank newWords s = s)
  ∧ handleUpdateWordBank newWords (handleUpdateWordBank newWords s)
    = handleUpdateWordBank newWords s
  ∧ handleUpdateWordBank [] s = s.
Proof.
  split; [| split].
  - intros Hknown. by apply handleUpdateWordBank_rejected, filtered_known.
  - apply handleUpdateWordBank_rejected, filtered_known. intros w Hw.
    rewrite handleUpdateWordBank_wordBank.
    destruct (decide (kannada w ∈ existing (wordBank s))) as [Hold | Hnew].
    + unfold existing in Hold. apply elem_of_list_to_set in Hold.
      change (map kannada ?l) with (kannada <$> l) in Hold.
      apply list_elem_of_fmap in Hold as (entry & Heq & He).
      exists entry. split; [| done]. apply elem_of_app. by right.
    + exists w. split; [| done]. apply elem_of_app. left.
      unfold filtered. apply list_elem_of_filter. done.
  - by apply handleUpdateWordBank_rejected.
Qed.

(** X2. The word bank is append-only: after any sequence of events from any
    state the old bank is the tail of the new one, and [wordsLearned] has
    grown by exactly the number of entries put in front of it. *)
Theorem wordBank_append_only es s :
  ∃ added,
    wordBank (run es s) = added ++ wordBank s
    ∧ wordsLearned (userProgress (run es s))
      = wordsLearned (userProgress s) + JS.length added.
Proof.
  revert s. induction es as [| e es IH]; intros s.
  - exists []. split; [done |]. unfold JS.length. simpl. lia.
  - rewrite run_cons. destruct (IH (step e s)) as (added & Hbank & Hcount).
    assert (Hstep : ∃ a, wordBank (step e s) = a ++ wordBank s
                         ∧ wordsLearned (userProgress (step e s))
                           = wordsLearned (userProgress s) + JS.length a).
    { destruct e; try (exists []; split; [done |]; unfold JS.length; simpl; lia).
      exists (filtered (wordBank s) newWords). cbn [step].
      split; [apply handleUpdateWordBank_wordBank
             | apply handleUpdateWordBank_wordsLearned]. }
    destruct Hstep as (a & Ha & Hca). exists (added ++ a).
    rewrite Hbank, Ha, Hcount, Hca, app_assoc. split; [done |].
    unfold JS.length. rewrite length_app. lia.
Qed.

End LedgerInvariants.

Section ReachableLedger.

Import App.

Implicit Types (s : State) (es : list Event).

Lemma checkBadge_identity p b :
  Observed.badgeIdentity (checkBadge p b) = Observed.badgeIdentity b.
Proof. by destruct (checkBadge_cases p b) as [-> | [_ ->]]. Qed.

Lemma step_badge_identities e s :
  map Observed.badgeIdentity (badges (userProgress (step e s)))
    = map Observed.badgeIdentity (badges (userProgress s))
  ∧ streak_days (userProgress (step e s)) = streak_days (userProgress s).
Proof.
  assert (Hmap : ∀ p, map Observed.badgeIdentity (checkBadges p)
                      = map Observed.badgeIdentity (badges p)).
  { intros p. unfold checkBadges. rewrite map_map. apply map_ext.
    intros b. apply checkBadge_identity. }
  destruct e; cbn [step]; try done.
  - unfold handleUpdateWordBank. case_match; [| done]. simpl.
    split; [| done]. by rewrite Hmap.
  - simpl. split; [| done]. by rewrite Hmap.
Qed.

(** X3. No event adds, removes, reorders or edits a badge: after any
    sequence of events the badge list has, slot by slot, the same id, name,
    icon, description, threshold and type; only [unlocked] can differ. The
    [streak] counter is never changed. *)
Theorem badges_identity_preserved es s :
  map Observed.badgeIdentity (badges (userProgress (run es s)))
    = map Observed.badgeIdentity (badges (userProgress s))
  ∧ streak_days (userProgress (run es s)) = streak_days (userProgress s).
Proof.
  revert s. induction es as [| e es IH]; intros s; [done |].
  rewrite run_cons. destruct (IH (step e s)) as [-> ->].
  apply step_badge_identities.
Qed.

Lemma checkBadges_badgesWith p rookie scholar :
  badges p = Observed.badgesWith rookie scholar →
  checkBadges p
    = Observed.badgesWith (rookie || (10 <=? wordsLearned p))
        (scholar || (5 <=? lessonsCompleted p)).
Proof.
  intros Hb. unfold checkBadges. rewrite Hb.
  destruct rookie, scholar; unfold Observed.badgesWith, checkBadge; simpl;
    destruct (10 <=? wordsLearned p), (5 <=? lessonsCompleted p); reflexivity.
Qed.

Lemma step_ledgerConsistent e s : Observed.ledgerConsistent s → Observed.ledgerConsistent (step e s).
Proof.
  intros (Hb & Hp & Hw & Hl). destruct e; cbn [step]; try done.
  - unfold Observed.ledgerConsistent.
    rewrite handleUpdateWordBank_wordBank, handleUpdateWordBank_wordsLearned.
    unfold handleUpdateWordBank.
    destruct (0 <? JS.length (filtered (wordBank s) newWords)) eqn:Hpos; simpl.
    + erewrite checkBadges_badgesWith by exact Hb. simpl.
      apply Z.ltb_lt in Hpos. unfold JS.length in *. rewrite length_app.
      repeat split; try lia. f_equal.
      * destruct (10 <=? wordsLearned (userProgress s)) eqn:E; simpl; [| done].
        symmetry. apply Z.leb_le. apply Z.leb_le in E. lia.
      * by destruct (5 <=? lessonsCompleted (userProgress s)).
    + apply Z.ltb_ge in Hpos. unfold JS.length in *. rewrite length_app.
      assert (Hz : List.length (filtered (wordBank s) newWords) = 0%nat) by lia.
      rewrite Hz, Z.add_0_r. simpl. done.
  - unfold Observed.ledgerConsistent. simpl.
    erewrite checkBadges_badgesWith by exact Hb. simpl.
    repeat split; try lia. f_equal.
    + by destruct (10 <=? wordsLearned (userProgress s)).
    + destruct (5 <=? lessonsCompleted (userProgress s)) eqn:E; simpl; [| done].
      symmetry. apply Z.leb_le. apply Z.leb_le in E. lia.
Qed.

Lemma run_ledgerConsistent es s :
  Observed.ledgerConsistent s → Observed.ledgerConsistent (run es s).
Proof.
  revert s. induction es as [| e es IH]; intros s Hs; [done |].
  rewrite run_cons. by apply IH, step_ledgerConsistent.
Qed.

Lemma initial_ledgerConsistent : Observed.ledgerConsistent initial.
Proof. unfold Observed.ledgerConsistent. simpl. repeat split; lia. Qed.

(** X4. In every state the application can reach from its initial state,
    "Rookie" is unlocked exactly when [wordsLearned] is at least 10,
    "Scholar" exactly when [lessonsCompleted] is at least 5, "Chatter" is
    locked, [points] is 50 times [lessonsCompleted], and [wordsLearned] is
    the length of the word bank. *)
Theorem reachable_ledger_consistent es :
  let s := run es initial in
  badges (userProgress s)
    = Observed.badgesWith (10 <=? wordsLearned (userProgress s))
        (5 <=? lessonsCompleted (userProgress s))
  ∧ points (userProgress s) = 50 * lessonsCompleted (userProgress s)
  ∧ wordsLearned (userProgress s) = JS.length (wordBank s).
Proof.
  destruct (run_ledgerConsistent es initial initial_ledgerConsistent)
    as (Hb & Hp & Hw & _). done.
Qed.

(** X26. The dashboard's "more XP to reach the next milestone" figure is
    500 minus 50 per completed lesson in every reachable state: it is zero
    after ten lessons and negative from the eleventh on. *)
Theorem remainingXP_goes_negative es :
  let p := userProgress (run es initial) in
  Dashboard.remainingXP p = 500 - 50 * lessonsCompleted p
  ∧ (Dashboard.remainingXP p < 0 ↔ 10 < lessonsCompleted p)
  ∧ (Dashboard.remainingXP p = 0 ↔ lessonsCompleted p = 10).
Proof.
  destruct (run_ledgerConsistent es initial initial_ledgerConsistent)
    as (_ & Hp & _ & _).
  cbv zeta. unfold Dashboard.remainingXP, Dashboard.nextLevelPoints.
  rewrite Hp. lia.
Qed.

End ReachableLedger.

(* ===================================================================== *)
(** ** More on audio playback                                              *)
(* ===================================================================== *)

Section AudioInvariants.

Import Audio.

Implicit Types (w : World) (text : jsstring).

(** X5. [stopAudio] is safe to call at any time: it never throws, it leaves
    both globals null and, where the browser has speech synthesis, the
    speech queue empty; it sends nothing; and calling it again changes
    nothing more. *)
Theorem stopAudio_idempotent w :
  Eff.raises stopAudio w = false
  ∧ currentSource (Eff.exec stopAudio w) = None
  ∧ currentAudioContext (Eff.exec stopAudio w) = None
  ∧ (hasSpeechSynthesis w = true → speaking (Eff.exec stopAudio w) = [])
  ∧ requests (Eff.exec stopAudio w) = requests w
  ∧ Eff.exec stopAudio (Eff.exec stopAudio w) = Eff.exec stopAudio w.
Proof.
  destruct w as [[c|] [src|] oc pl n [] vs sp rq];
    unfold Eff.raises, Eff.exec; simpl; repeat split; done.
Qed.

(** *** Normalization *)

Lemma removeUnits_elem cls (s : jsstring) c :
  c ∈ JS.removeUnits cls s → c ∈ s ∧ cls c = false.
Proof.
  unfold JS.removeUnits. rewrite list_elem_of_In, filter_In, <- list_elem_of_In.
  intros [Hin Hc]. split; [done |]. by destruct (cls c).
Qed.

Lemma removeAstral_elem_upto cls (n : nat) (s : jsstring) c :
  (List.length s ≤ n)%nat → c ∈ JS.removeAstral cls s → c ∈ s.
Proof.
  revert s. induction n as [| n IH]; intros s Hlen.
  - destruct s; [by intros ?%elem_of_nil | simpl in Hlen; lia].
  - destruct s as [| hi [| lo rest]]; simpl in *; [done | done |].
    destruct (JS.isHighSurrogate hi && JS.isLowSurrogate lo).
    + destruct (cls (JS.codePoint hi lo)).
      * intros Hc. do 2 apply list_elem_of_further. apply IH; [lia | done].
      * rewrite !elem_of_cons. intros [-> | [-> | Hc]]; auto.
        right. right. apply IH; [lia | done].
    + rewrite elem_of_cons. intros [-> | Hc]; [left |].
      apply list_elem_of_further. apply (IH (lo :: rest)); [simpl; lia | done].
Qed.

Lemma removeAstral_elem cls (s : jsstring) c :
  c ∈ JS.removeAstral cls s → c ∈ s.
Proof. by apply (removeAstral_elem_upto cls (List.length s)). Qed.

(** What [trimStart] strips is a prefix. *)
Lemma trimStart_suffix (s : jsstring) : ∃ pre, s = pre ++ JS.trimStart s.
Proof.
  induction s as [| c s [pre IH]]; [by exists [] |]. simpl.
  destruct (JS.isTrimmable c).
  - exists (c :: pre). simpl. by f_equal.
  - by exists [].
Qed.

Lemma trimStart_head (s : jsstring) c rest :
  JS.trimStart s = c :: rest → JS.isTrimmable c = false.
Proof.
  induction s as [| d s IH]; [done |]. simpl.
  destruct (JS.isTrimmable d) eqn:Hd; [done |]. by intros [= <- _].
Qed.

Lemma trim_prefix (s : jsstring) : ∃ post, JS.trimStart s = JS.trim s ++ post.
Proof.
  unfold JS.trim, JS.trimEnd.
  destruct (trimStart_suffix (rev (JS.trimStart s))) as [pre Hpre].
  exists (rev pre). rewrite <- rev_app_distr, <- Hpre. by rewrite rev_involutive.
Qed.

Lemma trim_elem (s : jsstring) c : c ∈ JS.trim s → c ∈ s.
Proof.
  intros Hc. destruct (trim_prefix s) as [post Hpost].
  destruct (trimStart_suffix s) as [pre Hpre].
  rewrite Hpre, Hpost, !elem_of_app. auto.
Qed.

Lemma trim_head (s : jsstring) c rest :
  JS.trim s = c :: rest → JS.isTrimmable c = false.
Proof.
  intros Ht. destruct (trim_prefix s) as [post Hpost]. rewrite Ht in Hpost.
  by apply (trimStart_head s c (rest ++ post)).
Qed.

Lemma trim_last (s : jsstring) front c :
  JS.trim s = front ++ [c] → JS.isTrimmable c = false.
Proof.
  unfold JS.trim, JS.trimEnd. intros Ht.
  apply (f_equal (@rev N)) in Ht. rewrite rev_involutive, rev_app_distr in Ht.
  simpl in Ht. by apply trimStart_head in Ht.
Qed.

Lemma cleanTextForTTS_elem text c :
  c ∈ cleanTextForTTS text → isMarkdown c = false ∧ isBracket c = false.
Proof.
  unfold cleanTextForTTS. destruct (JS.falsy text); [by intros ?%elem_of_nil |].
  intros Hc. apply trim_elem, removeAstral_elem in Hc.
  apply removeUnits_elem in Hc as [Hc Hb].
  apply removeUnits_elem in Hc as [_ Hm]. done.
Qed.

(** X6. The text [cleanTextForTTS] returns holds none of the characters
    [* _ ` ~ { } [ ] ( )], and neither starts nor ends with a white space
    or a line terminator. *)
Theorem cleanTextForTTS_clean text :
  (∀ c, c ∈ cleanTextForTTS text → isMarkdown c = false ∧ isBracket c = false)
  ∧ (∀ c rest, cleanTextForTTS text = c :: rest → JS.isTrimmable c = false)
  ∧ (∀ front c, cleanTextForTTS text = front ++ [c] → JS.isTrimmable c = false).
Proof.
  split; [intros c; apply cleanTextForTTS_elem |].
  unfold cleanTextForTTS. destruct (JS.falsy text).
  - split; [done |]. intros front c H. by destruct front.
  - split; [intros c rest; apply trim_head | intros front c; apply trim_last].
Qed.

(** *** What is sent to the synthesis service *)

Lemma speakWithBrowser_requests text w :
  requests (Eff.exec (speakWithBrowser text) w) = requests w.
Proof. destruct w as [cc cs oc pl n [] vs sp rq]; reflexivity. Qed.

Lemma playAudio_resume_requests cleanText response w :
  requests (Eff.exec (playAudio_resume cleanText response) w) = requests w.
Proof.
  destruct w as [cc cs oc pl n [] vs sp rq], response as [e | | []]; reflexivity.
Qed.

(** What a call of [playAudio] adds to the requests and to the suspended
    calls: nothing, or the one sendable text. *)
Lemma playAudio_sends text w :
  (fst (playAudio text w) = Normal None
   ∧ requests (Eff.exec (playAudio text) w) = requests w)
  ∨ (∃ cleanText,
       Observed.sendable cleanText
       ∧ fst (playAudio text w) = Normal (Some cleanText)
       ∧ requests (Eff.exec (playAudio text) w) = requests w ++ [cleanText]).
Proof.
  unfold Eff.exec. rewrite playAudio_unfold. cbv zeta.
  destruct (JS.falsy (cleanTextForTTS text)) eqn:Hf; simpl.
  { left. split; [done |]. apply stopAudio_requests. }
  destruct ((JS.length (cleanTextForTTS text) <? 3)
            && negb (JS.hasKannada (cleanTextForTTS text))) eqn:Hshort; simpl.
  { left. split; [done |]. rewrite speakWithBrowser_requests.
    apply stopAudio_requests. }
  right. exists (cleanTextForTTS text). split; [| split; [done |]].
  - split; [by destruct (cleanTextForTTS text) |].
    split; [intros c; apply cleanTextForTTS_elem |].
    apply andb_false_iff in Hshort as [Hlen | Hkn].
    + left. by apply Z.ltb_ge.
    + right. by apply negb_false_iff.
  - by rewrite stopAudio_requests.
Qed.

Lemma step_requests_sendable e (s : System) :
  Forall Observed.sendable (requests (world s)) →
  Forall Observed.sendable (pending s) →
  Forall Observed.sendable (requests (world (step e s)))
  ∧ Forall Observed.sendable (pending (step e s)).
Proof.
  intros Hr Hp. destruct e as [text | | k response | src |]; cbn [step].
  - destruct (playAudio_sends text (world s)) as [[Hret Hreq] | (ct & Hct & Hret & Hreq)];
      unfold Eff.exec in Hreq;
      destruct (playAudio text (world s)) as [r w'] eqn:Hplay;
      simpl in Hret, Hreq; subst r; simpl.
    + by rewrite Hreq.
    + rewrite Hreq. split; apply Forall_app; split; try done;
        by apply Forall_singleton.
  - simpl. by rewrite stopAudio_requests.
  - destruct (pending s !! k) eqn:Hk; [| done]. simpl.
    rewrite playAudio_resume_requests. split; [done |].
    apply Forall_app. split.
    + by apply Forall_take.
    + by apply Forall_drop.
  - destruct (playing (world s) !! src); done.
  - done.
Qed.

(** X7. Only normalized texts reach the remote synthesis service: after any
    sequence of events from the initial state, every text sent, and every
    text still awaited, is not empty, holds no markup character, and has at
    least three code units unless it holds Kannada script. *)
Theorem requests_always_sendable es hasSpeech installed :
  let s := run es (mkSystem (initial hasSpeech installed) []) in
  Forall Observed.sendable (requests (world s))
  ∧ Forall Observed.sendable (pending s).
Proof.
  assert (H : ∀ s, Forall Observed.sendable (requests (world s)) →
                   Forall Observed.sendable (pending s) →
                   Forall Observed.sendable (requests (world (run es s)))
                   ∧ Forall Observed.sendable (pending (run es s))).
  { induction es as [| e es IH]; intros s Hr Hp; [done |].
    simpl. destruct (step_requests_sendable e s Hr Hp). by apply IH. }
  apply H; constructor.
Qed.

End AudioInvariants.

Section AudioFallback.

Import Audio.

Implicit Types (w : World) (text : jsstring).

Lemma stopAudio_keeps w :
  hasSpeechSynthesis (Eff.exec stopAudio w) = hasSpeechSynthesis w
  ∧ nextObject (Eff.exec stopAudio w) = nextObject w
  ∧ voices (Eff.exec stopAudio w) = voices w.
Proof. destruct w as [[c|] [src|] oc pl n [] vs sp rq]; by repeat split. Qed.

Lemma stopAudio_globals w :
  currentSource (Eff.exec stopAudio w) = None
  ∧ currentAudioContext (Eff.exec stopAudio w) = None
  ∧ (hasSpeechSynthesis w = true → speaking (Eff.exec stopAudio w) = []).
Proof. destruct w as [[c|] [src|] oc pl n [] vs sp rq]; by repeat split. Qed.

(** The queue after [speakWithBrowser], on a browser with speech
    synthesis. *)
Lemma speakWithBrowser_queues text w :
  hasSpeechSynthesis w = true →
  ∃ u, Eff.exec (speakWithBrowser text) w = setSpeaking (speaking w ++ [u]) w
       ∧ utterance_text u = text
       ∧ utterance_lang u
         = (if JS.hasKannada text then JS.lit "kn-IN" else JS.lit "en-US").
Proof.
  destruct w as [cc cs oc pl n has vs sp rq]. simpl. intros ->.
  eexists. unfold Eff.exec. simpl. split; [reflexivity |]. by split.
Qed.

Lemma speakWithBrowser_absent text w :
  hasSpeechSynthesis w = false → Eff.exec (speakWithBrowser text) w = w.
Proof. destruct w as [cc cs oc pl n has vs sp rq]. simpl. by intros ->. Qed.

(** X8. A text that is not empty after normalization but shorter than three
    code units and without Kannada script is never sent to the remote
    synthesis: [playAudio] stops the current playback, returns without
    suspending and, where the browser has speech synthesis, leaves exactly
    one utterance queued, of that text, in en-US. *)
Theorem playAudio_short_text text w
  (Hsome : JS.falsy (cleanTextForTTS text) = false)
  (Hshort : JS.length (cleanTextForTTS text) < 3)
  (Hlatin : JS.hasKannada (cleanTextForTTS text) = false) :
  fst (playAudio text w) = Normal None
  ∧ requests (Eff.exec (playAudio text) w) = requests w
  ∧ currentSource (Eff.exec (playAudio text) w) = None
  ∧ currentAudioContext (Eff.exec (playAudio text) w) = None
  ∧ (hasSpeechSynthesis w = true →
     ∃ u, speaking (Eff.exec (playAudio text) w) = [u]
          ∧ utterance_text u = cleanTextForTTS text
          ∧ utterance_lang u = JS.lit "en-US").
Proof.
  unfold Eff.exec. rewrite playAudio_unfold. cbv zeta. rewrite Hsome.
  apply Z.ltb_lt in Hshort. rewrite Hshort, Hlatin. simpl.
  destruct (stopAudio_globals w) as (Hcs & Hcc & Hsp).
  pose proof (stopAudio_requests w) as Hrq.
  destruct (stopAudio_keeps w) as (Hhas & _ & _).
  split; [done |]. rewrite speakWithBrowser_requests. split; [done |].
  destruct (hasSpeechSynthesis w) eqn:Hw.
  - destruct (speakWithBrowser_queues (cleanTextForTTS text)
                (Eff.exec stopAudio w)) as (u & -> & Hu & Hl); [by rewrite Hhas |].
    simpl. rewrite Hlatin in Hl. repeat split; try done.
    intros _. exists u. rewrite (Hsp eq_refl). done.
  - rewrite speakWithBrowser_absent by (by rewrite Hhas). repeat split; done.
Qed.

(** X9. When the synthesis request fails, returns no audio, or returns
    audio that cannot be decoded, [playAudio] swallows the error and falls
    back to the browser: no exception escapes, no source is started, no
    further request is sent, and the normalized text is queued for speech
    synthesis where the browser has it. A rejected request or one without
    audio opens no audio context either. *)
Theorem synthesis_failure_falls_back cleanText response w
  (Hfailed : response ≠ TtsAudio true) :
  Eff.raises (playAudio_resume cleanText response) w = false
  ∧ playing (Eff.exec (playAudio_resume cleanText response) w) = playing w
  ∧ currentSource (Eff.exec (playAudio_resume cleanText response) w)
    = currentSource w
  ∧ requests (Eff.exec (playAudio_resume cleanText response) w) = requests w
  ∧ (hasSpeechSynthesis w = true →
     ∃ u, speaking (Eff.exec (playAudio_resume cleanText response) w)
          = speaking w ++ [u]
          ∧ utterance_text u = cleanText)
  ∧ (hasSpeechSynthesis w = false →
     speaking (Eff.exec (playAudio_resume cleanText response) w) = speaking w)
  ∧ (response ≠ TtsAudio false →
     openContexts (Eff.exec (playAudio_resume cleanText response) w)
       = openContexts w
     ∧ currentAudioContext (Eff.exec (playAudio_resume cleanText response) w)
       = currentAudioContext w).
Proof.
  destruct w as [cc cs oc pl n has vs sp rq].
  destruct response as [e | | []]; [| | done |];
    destruct has; unfold Eff.raises, Eff.exec; simpl;
    repeat split; try done; try (intros _; eexists; split; reflexivity).
Qed.





(** X11. Calls of [playAudio] that do not overlap preempt each other
    cleanly: when a call runs to completion in a state where the globals
    account for every audio resource, and its text is sent and comes back as
    audio, then afterwards exactly one context is open and one source
    sounds, both created by this call and both held by the globals, and
    nothing is queued for the browser; whatever an earlier call held is
    released. *)
Theorem uninterrupted_play_owns_slot textA responseA textB w
  (Hslot : singleSlot w)
  (Hsome : JS.falsy (cleanTextForTTS textB) = false)
  (Hlong : (JS.length (cleanTextForTTS textB) <? 3)
           && negb (JS.hasKannada (cleanTextForTTS textB)) = false) :
  let w1 := Eff.exec (playToCompletion textA responseA) w in
  let w2 := Eff.exec (playToCompletion textB (TtsAudio true)) w1 in
  let ctx := nextObject w1 in
  let src := S (nextObject w1) in
  currentAudioContext w2 = Some ctx
  ∧ currentSource w2 = Some src
  ∧ openContexts w2 = {[ctx]}
  ∧ playing w2 = {[src := ctx]}
  ∧ speaking w2 = []
  ∧ activePlaybacks w2 = 1%nat
  ∧ requests w2 = requests w1 ++ [cleanTextForTTS textB].
Proof.
  cbv zeta.
  pose proof (playToCompletion_singleSlot textA responseA w Hslot) as H1.
  set (w1 := Eff.exec (playToCompletion textA responseA) w) in *. clearbody w1.
  pose proof (stopAudio_releases w1 H1) as (Hcc & Hcs & Hoc & Hpl & Hsp).
  destruct (stopAudio_keeps w1) as (_ & Hn & _).
  pose proof (stopAudio_requests w1) as Hrq.
  unfold playToCompletion, Eff.exec at 1 2 3 4 5 6 7, Eff.bind.
  rewrite playAudio_unfold. cbv zeta. rewrite Hsome, Hlong.
  destruct (Eff.exec stopAudio w1) as [cc cs oc pl n has vs sp rq].
  simpl in *. subst. unfold activePlaybacks. simpl.
  rewrite insert_empty, map_size_singleton, union_empty_r_L.
  repeat split; done.
Qed.

End AudioFallback.

(* ===================================================================== *)
(** ** Decoding the synthesized audio                                      *)
(* ===================================================================== *)

Section AudioDecoding.

Import AudioData.







End AudioDecoding.

(* ===================================================================== *)
(** ** More on the conversation and the quiz                               *)
(* ===================================================================== *)

Section ConversationFlow.

Import ChatInterface.

Implicit Types (w : World) (transcript : jsstring).

Lemma trimStart_blank (s : jsstring) :
  (∀ c, c ∈ s → JS.isTrimmable c = true) → JS.trimStart s = [].
Proof.
  induction s as [| c s IH]; [done |]. intros Hall. simpl.
  rewrite (Hall c) by left. apply IH. intros d Hd. apply Hall. by right.
Qed.

(** X13. A transcript made of white space only (or empty) is ignored by
    [handleVoiceResult]: no message is appended, the processing flag is not
    touched, no request is sent and nothing is played. *)
Theorem handleVoiceResult_blank now now' transcript settled w
  (Hblank : ∀ c, c ∈ transcript → JS.isTrimmable c = true) :
  handleVoiceResult now now' transcript settled w = (Normal tt, w).
Proof.
  unfold handleVoiceResult, JS.trim, JS.trimEnd.
  by rewrite (trimStart_blank transcript Hblank).
Qed.





End ConversationFlow.

Section QuizFlow.

Variable toLowerCase toUpperCase : jsstring → jsstring.

Lemma includes_nil (s : jsstring) : JS.includes s [] = true.
Proof. by destruct s. Qed.

(** X15. [validateAnswer] never throws and sends at most one request, the
    validation prompt for the two answers. A reply without text counts as
    incorrect. An empty expected answer is contained in every answer, so it
    is accepted without a request (given that lowercasing the empty string
    yields the empty string). *)
Theorem validateAnswer_total userAnswer correctAnswer settled sent0 :
  (∃ verdict,
     Tutor.validateAnswer toLowerCase toUpperCase userAnswer correctAnswer
       settled sent0 = (Normal verdict, sent0)
     ∨ Tutor.validateAnswer toLowerCase toUpperCase userAnswer correctAnswer
         settled sent0
       = (Normal verdict,
          sent0 ++ [Tutor.ValidationRequest
                      (Tutor.validationPrompt userAnswer correctAnswer)]))
  ∧ (JS.includes (toLowerCase userAnswer) (toLowerCase correctAnswer) = false →
     fst (Tutor.validateAnswer toLowerCase toUpperCase userAnswer correctAnswer
            (Tutor.TextIs None) sent0) = Normal false)
  ∧ (toLowerCase [] = [] →
     Tutor.validateAnswer toLowerCase toUpperCase userAnswer [] settled sent0
     = (Normal true, sent0)).
Proof.
  unfold Tutor.validateAnswer. split; [| split].
  - destruct (JS.includes (toLowerCase userAnswer) (toLowerCase correctAnswer)).
    + exists true. by left.
    + destruct settled as [e | [t|]]; eexists; right; reflexivity.
  - by intros ->.
  - intros ->. by rewrite includes_nil.
Qed.

Import LessonView.

(** X16. The quiz never stays in [verifying]: with a lesson loaded,
    [handleVoiceAnswer] records the transcript as the answer, lets no
    exception out, and ends in [success] exactly when [validateAnswer]
    returns true and in [failure] otherwise, starting the matching
    feedback audio; a failed validation request therefore ends in [failure]
    unless the answer contains the expected one. With no lesson loaded it
    does nothing. [handleRetry] puts the quiz back to [idle] with an empty
    answer and touches nothing else. *)
Theorem quiz_always_settles transcript settled w :
  (lesson (view w) = None →
   handleVoiceAnswer toLowerCase toUpperCase transcript settled w = (Normal tt, w))
  ∧ (∀ content,
       lesson (view w) = Some content →
       let expected := correctAnswer (quizQuestion content) in
       let verdict :=
         fst (Tutor.validateAnswer toLowerCase toUpperCase transcript expected
                settled (sent w)) in
       let w' := Eff.exec (handleVoiceAnswer toLowerCase toUpperCase
                             transcript settled) w in
       Eff.raises (handleVoiceAnswer toLowerCase toUpperCase transcript settled) w
         = false
       ∧ userAnswer (view w') = transcript
       ∧ lesson (view w') = Some content
       ∧ ((verdict = Normal true
           ∧ quizState (view w') = success
           ∧ audio w'
             = Audio.step (Audio.Play (JS.lit "Sari! That is correct. Very good!"))
                 (audio w))
          ∨ (verdict = Normal false
             ∧ quizState (view w') = failure
             ∧ audio w'
               = Audio.step
                   (Audio.Play (JS.lit "Not quite. The answer is " ++ expected
                                ++ JS.lit ". Try saying it."))
                   (audio w))))
  ∧ (let w' := Eff.exec handleRetry w in
     quizState (view w') = idle ∧ userAnswer (view w') = []
     ∧ lesson (view w') = lesson (view w) ∧ loading (view w') = loading (view w)
     ∧ audio w' = audio w ∧ sent w' = sent w).
Proof.
  split; [| split].
  - intros Hnone. unfold handleVoiceAnswer, Eff.bind, Eff.get. by rewrite Hnone.
  - intros content Hsome. cbv zeta.
    unfold Eff.exec, Eff.raises, handleVoiceAnswer, validateAnswer,
      Tutor.validateAnswer, Eff.bind, Eff.get, Eff.zoom.
    rewrite Hsome. simpl.
    destruct (JS.includes (toLowerCase transcript)
                (toLowerCase (correctAnswer (quizQuestion content)))); simpl.
    { repeat split; try done. by left. }
    destruct settled as [e | [t|]]; simpl.
    + repeat split; try done. by right.
    + destruct (JS.includes (toUpperCase (JS.trim t)) (JS.lit "TRUE")); simpl;
        repeat split; try done; [by left | by right].
    + repeat split; try done. by right.
  - by repeat split.
Qed.

End QuizFlow.

(* ===================================================================== *)
(** ** Fetching the lesson                                                 *)
(* ===================================================================== *)

Section LessonFetch.

Import LessonEffect.

Implicit Types (w : World) (fs : list Fetch).

(** Unfold a handler of the lesson effect down to the store. *)
Ltac lesson_unfold :=
  unfold step, handler, cleanup, fetchLesson, fetchLesson_resume,
    generateLesson, setLesson, setLoading, setLessonView, setFetches,
    onUpdateWordBank, setTimeout_playAudio, Eff.exec, Eff.raises, Eff.bind,
    Eff.tryCatch, Eff.tryFinally, Eff.get, Eff.modify, Eff.ret, Eff.throw;
  simpl.









(** X18. What a mounted fetch does when its request settles. On any failure
    (the request rejects, has no text, or cannot be parsed) the error is
    logged and swallowed: the lesson is left as it was, [loading] is
    cleared, and neither the word bank nor the timers change, so a view with
    no lesson shows its error state. On success the lesson is stored, its
    examples are handed to the word bank, one delayed playback of
    "Let's learn about <title>. <concept>" is scheduled and [loading] is
    cleared. The quiz state and the answer are never touched, and no
    exception escapes. *)
Theorem lesson_fetch_outcome settled w :
  let w' := Eff.exec (fetchLesson_resume true settled) w in
  Eff.raises (fetchLesson_resume true settled) w = false
  ∧ LessonView.loading (LessonView.view (lessonView w')) = false
  ∧ LessonView.quizState (LessonView.view (lessonView w'))
    = LessonView.quizState (LessonView.view (lessonView w))
  ∧ LessonView.userAnswer (LessonView.view (lessonView w'))
    = LessonView.userAnswer (LessonView.view (lessonView w))
  ∧ fetches w' = fetches w
  ∧ (Tutor.isFailure settled = true →
     LessonView.lesson (LessonView.view (lessonView w'))
       = LessonView.lesson (LessonView.view (lessonView w))
     ∧ app w' = app w ∧ timers w' = timers w)
  ∧ (∀ data,
       settled = Tutor.Parsed data →
       LessonView.lesson (LessonView.view (lessonView w')) = Some data
       ∧ app w' = App.handleUpdateWordBank (LessonView.examples data) (app w)
       ∧ timers w'
         = timers w ++ [JS.lit "Let's learn about " ++ LessonView.title data
                        ++ JS.lit ". " ++ LessonView.concept data]).
Proof.
  destruct w as [v a fs rq ts].
  destruct settled as [e | | | data]; lesson_unfold;
    do 5 (split; [done |]);
    (split; [intros Hf; try done; by repeat split
            | intros d Hd; try done; injection Hd as <-; by repeat split]).
Qed.

End LessonFetch.

(* ===================================================================== *)
(** ** More on voice capture                                               *)
(* ===================================================================== *)

Section VoiceHandlers.

Import VoiceControl.

Implicit Types (w : World) (e : Event).

(** Unfold a handler of the voice control down to the store. *)
Ltac handler_unfold :=
  unfold step, handler, startListening, stopListening, cleanup, setup,
    onresult, onend, onerror, onResult, stopAudio, recognition_start,
    recognition_stop, recognition_abort, setIsListening, setRecognitionRef,
    newRecognition, alert, vibrate, setSessions, setControl, Eff.exec,
    Eff.raises, Eff.bind, Eff.tryCatch, Eff.get, Eff.modify, Eff.ret, Eff.throw;
  simpl.

(** X19. No handler of the voice control lets an exception out, in any
    state and whatever the recognizer does: a [start()] or [stop()] that
    throws is caught. *)
Theorem voice_handlers_never_raise e w :
  Eff.raises (handler e) w = false.
Proof.
  destruct w as [[listening ref] ss n sup vib vs al ts a].
  destruct e as [| | fails | fails | rec t | rec | rec err]; handler_unfold.
  - by destruct ref, sup.
  - by destruct ref.
  - destruct ref as [r|]; simpl; [| done]. destruct listening; simpl; [done |].
    destruct (ss !! r); simpl; [done |].
    destruct fails as [ex|]; simpl; [by destruct (alreadyStarted ex) | by destruct vib].
  - destruct ref as [r|]; simpl; [| done]. by destruct fails.
  - done.
  - done.
  - repeat case_match; done.
Qed.

(** X20. Barge-in: pressing the button stops the audio in every state, also
    when the component is already listening, when no recognizer exists, and
    when the recognizer refuses to start; and pressing is the only thing in
    the component that touches the audio. *)
Theorem press_always_stops_audio e w :
  audio (step e w)
  = match e with
    | Press _ => Audio.step Audio.Stop (audio w)
    | _ => audio w
    end.
Proof.
  destruct w as [[listening ref] ss n sup vib vs al ts a].
  destruct e as [| | fails | fails | rec t | rec | rec err]; handler_unfold.
  - by destruct ref, sup.
  - by destruct ref.
  - destruct ref as [r|]; simpl; [| done]. destruct listening; simpl; [done |].
    destruct (ss !! r); simpl; [done |].
    destruct fails as [ex|]; simpl; [by destruct (alreadyStarted ex) | by destruct vib].
  - destruct ref as [r|]; simpl; [| done]. destruct fails; simpl; [done |].
    by destruct (ss !! r) as [[]|].
  - done.
  - done.
  - repeat case_match; done.
Qed.

(** X21. What a press does when the component is not listening and holds a
    recognizer. If the recognizer is idle and starts, the component is
    listening with one capturing session on that recognizer, and the device
    vibrates once where it can. If the recognizer already has a session (the
    flag was stale), its InvalidStateError is swallowed, no session is
    added, and the flag is brought back to listening. If the recognizer
    fails to start for another reason, no session is added and the flag is
    set only when the error says "already started". *)
Theorem press_outcomes w rec fails
  (Hidle : isListening (control w) = false)
  (Hheld : recognitionRef (control w) = Some rec) :
  let w' := Eff.exec (startListening fails) w in
  recognitionRef (control w') = Some rec
  ∧ (sessions w !! rec = None → fails = None →
     isListening (control w') = true
     ∧ sessions w' = <[rec := capturing]> (sessions w)
     ∧ vibrations w' = (if canVibrate w then S (vibrations w) else vibrations w))
  ∧ (is_Some (sessions w !! rec) →
     isListening (control w') = true
     ∧ sessions w' = sessions w ∧ vibrations w' = vibrations w)
  ∧ (sessions w !! rec = None → ∀ ex, fails = Some ex →
     isListening (control w') = alreadyStarted ex
     ∧ sessions w' = sessions w ∧ vibrations w' = vibrations w).
Proof.
  destruct w as [[listening ref] ss n sup vib vs al ts a]. simpl in *. subst.
  handler_unfold. destruct (ss !! rec) as [ph|] eqn:Hrec; simpl.
  - split; [done |]. split; [done |]. split; [done |]. done.
  - destruct fails as [ex|]; simpl.
    + destruct (alreadyStarted ex) eqn:Hex; simpl;
        (split; [done |]); (split; [done |]);
        (split; [by intros [? ?] |]); intros _ ex' [= <-]; by rewrite Hex.
    + destruct vib; simpl; (split; [done |]); (split; [done |]);
        (split; [by intros [? ?] |]); done.
Qed.

(** X22. A recognition error always ends listening and never touches the
    recognizer or its sessions. Only the error "not-allowed" tells the user,
    with exactly one notice; "no-speech", "aborted" and every other error
    are silent. *)
Theorem recognition_error_handling error w :
  let w' := Eff.exec (onerror error) w in
  isListening (control w') = false
  ∧ recognitionRef (control w') = recognitionRef (control w)
  ∧ sessions w' = sessions w
  ∧ transcripts w' = transcripts w
  ∧ audio w' = audio w
  ∧ alerts w'
    = (if bool_decide (error = JS.lit "not-allowed")
       then alerts w
            ++ [JS.lit "Microphone permission denied. Please enable it in browser settings."]
       else alerts w).
Proof.
  destruct w as [[listening ref] ss n sup vib vs al ts a].
  unfold onerror.
  destruct (bool_decide (error = JS.lit "no-speech")) eqn:H1.
  { apply bool_decide_eq_true in H1. subst. by vm_compute. }
  destruct (bool_decide (error = JS.lit "aborted")) eqn:H2.
  { apply bool_decide_eq_true in H2. subst. by vm_compute. }
  simpl. destruct (bool_decide (error = JS.lit "not-allowed")); by handler_unfold.
Qed.

(** X23. When the effect on the language runs in a state where every
    session belongs to the recognizer held, the old recognizer is aborted
    and no session is left in progress; with speech recognition available
    the component then holds a recognizer that did not exist before, and
    without it the component holds none and the user is told once. The
    listening flag is not reset by the effect. *)
Theorem lang_effect_resets w
  (Hheld : sessionsHeld w) :
  let w' := step LangEffect w in
  sessions w' = ∅
  ∧ isListening (control w') = isListening (control w)
  ∧ (supported w = true →
     recognitionRef (control w') = Some (nextRecognition w)
     ∧ nextRecognition w' = S (nextRecognition w)
     ∧ alerts w' = alerts w)
  ∧ (supported w = false →
     recognitionRef (control w') = None
     ∧ alerts w'
       = alerts w
         ++ [JS.lit "Speech recognition not supported in this browser. Try Chrome or Safari."]).
Proof.
  destruct w as [[listening ref] ss n sup vib vs al ts a].
  unfold sessionsHeld in Hheld. simpl in Hheld.
  assert (Hss : match ref with Some r => delete r ss | None => ss end = ∅).
  { apply map_empty. intros rec. destruct ref as [r|].
    - destruct (delete r ss !! rec) eqn:E; [| done].
      apply lookup_delete_Some in E as [Hne E].
      assert (Hs : is_Some (ss !! rec)) by eauto.
      apply Hheld in Hs. congruence.
    - destruct (ss !! rec) eqn:E; [| done].
      assert (Hs : is_Some (ss !! rec)) by eauto. by apply Hheld in Hs. }
  destruct ref as [r|], sup; handler_unfold; rewrite ?Hss;
    repeat split; done.
Qed.

(** X24. One hold of the button, from an idle component whose recognizer has
    no session: press, release, a recognized transcript, the end of the
    session. While held the component is listening with a capturing session;
    after the release it is still listening, the session finishing; at the
    end the component and the sessions are exactly as before the press, and
    the transcript has been handed over exactly once. *)
Theorem press_release_cycle w rec transcript
  (Hidle : isListening (control w) = false)
  (Hheld : recognitionRef (control w) = Some rec)
  (Hfree : sessions w !! rec = None) :
  let held := step (Press None) w in
  let released := step (Release None) held in
  let ended := run [Recognized rec transcript; Ended rec] released in
  (isListening (control held) = true ∧ sessions held !! rec = Some capturing)
  ∧ (isListening (control released) = true
     ∧ sessions released !! rec = Some stopping)
  ∧ control ended = control w
  ∧ sessions ended = sessions w
  ∧ transcripts ended = transcripts w ++ [transcript]
  ∧ alerts ended = alerts w.
Proof.
  destruct w as [[listening ref] ss n sup vib vs al ts a]. simpl in *. subst.
  handler_unfold. rewrite Hfree. simpl.
  destruct vib; simpl; rewrite lookup_insert_eq; simpl;
    rewrite ?lookup_insert_eq, ?insert_insert_eq, ?delete_insert_eq,
      ?(delete_id ss rec) by done;
    repeat split; done.
Qed.

End VoiceHandlers.

(* ===================================================================== *)
(** ** The word bank drawer                                                *)
(* ===================================================================== *)

Section WordBankGrouping.

Import WordBankView.

(** The names an object inherits; nothing below depends on which they
    are. *)
Variable inherited : jsstring → bool.

Implicit Types (words : list Word) (grouped : gmap jsstring (list Word)).

Lemma wordsOf_cons cat word words :
  wordsOf cat (word :: words)
  = if decide (displayCategory word = cat)
    then word :: wordsOf cat words else wordsOf cat words.
Proof. unfold wordsOf. by rewrite filter_cons. Qed.

Lemma forEach_groups words grouped :
  (∀ word, word ∈ words → inherited (displayCategory word) = false) →
  ∃ result,
    forEach inherited words grouped = inr result
    ∧ ∀ cat, result !! cat = Observed.extended (grouped !! cat) (wordsOf cat words).
Proof.
  revert grouped. induction words as [| word words IH]; intros grouped Hown.
  - exists grouped. split; [done |]. intros cat. simpl.
    destruct (grouped !! cat); simpl; [by rewrite app_nil_r | done].
  - assert (Hword : inherited (displayCategory word) = false) by (apply Hown; left).
    assert (Hrest : ∀ w, w ∈ words → inherited (displayCategory w) = false).
    { intros w Hw. apply Hown. by right. }
    simpl. unfold addWord. rewrite Hword.
    destruct (grouped !! displayCategory word) as [group|] eqn:Hg.
    + destruct (IH (<[displayCategory word := group ++ [word]]> grouped) Hrest)
        as (result & -> & Hres).
      exists result. split; [done |]. intros cat. rewrite Hres, wordsOf_cons.
      destruct (decide (displayCategory word = cat)) as [<- | Hne].
      * rewrite lookup_insert_eq, Hg. simpl. by rewrite <- app_assoc.
      * by rewrite lookup_insert_ne.
    + destruct (IH (<[displayCategory word := [word]]> grouped) Hrest)
        as (result & -> & Hres).
      exists result. split; [done |]. intros cat. rewrite Hres, wordsOf_cons.
      destruct (decide (displayCategory word = cat)) as [<- | Hne].
      * rewrite lookup_insert_eq, Hg. done.
      * by rewrite lookup_insert_ne.
Qed.

Lemma forEach_throws words grouped word :
  word ∈ words → inherited (displayCategory word) = true →
  (∀ cat, inherited cat = true → grouped !! cat = None) →
  forEach inherited words grouped = inl TypeError.
Proof.
  revert grouped. induction words as [| first words IH]; intros grouped Hin Hbad Hg.
  - by apply elem_of_nil in Hin.
  - simpl. unfold addWord.
    destruct (inherited (displayCategory first)) eqn:Hfirst.
    + by rewrite (Hg _ Hfirst).
    + apply elem_of_cons in Hin as [-> | Hin]; [congruence |].
      destruct (grouped !! displayCategory first) as [group|] eqn:Hgf;
        apply IH; try done; intros cat Hcat;
        (rewrite lookup_insert_ne; [by apply Hg | congruence]).
Qed.

(** X25. Grouping the word bank by category loses and duplicates nothing:
    when no category is a name that objects inherit, [categorizedWords]
    returns groups such that a category has a group exactly when some word
    shows under it (its own category, or "General" when it has none or an
    empty one), and the group is those words in the order of the bank. When
    some word's category is an inherited name (such as "constructor"), the
    grouping throws a TypeError instead. *)
Theorem categorizedWords_groups words :
  ((∀ word, word ∈ words → inherited (displayCategory word) = false) →
   ∃ groups,
     categorizedWords inherited words = inr groups
     ∧ ∀ cat,
         groups !! cat
         = (if decide (wordsOf cat words = []) then None
            else Some (wordsOf cat words)))
  ∧ (∀ word, word ∈ words → inherited (displayCategory word) = true →
     categorizedWords inherited words = inl TypeError).
Proof.
  split.
  - intros Hown. destruct (forEach_groups words ∅ Hown) as (groups & Hg & Hres).
    exists groups. split; [done |]. intros cat. rewrite Hres, lookup_empty.
    by destruct (wordsOf cat words).
  - intros word Hin Hbad. by apply (forEach_throws words ∅ word).
Qed.

End WordBankGrouping.

(* ===================================================================== *)
(** ** The properties at sample inputs                                     *)
(* ===================================================================== *)

(** The second word of the sample session delivered once more. *)
Lemma handleUpdateWordBank_redelivery_witness :
  App.handleUpdateWordBank [Samples.haudu; Samples.namaskara]
    (App.run Samples.session App.initial)
  = App.run Samples.session App.initial.
Proof.
  apply (proj1 (handleUpdateWordBank_redelivery [Samples.haudu; Samples.namaskara]
                  (App.run Samples.session App.initial))).
  intros w Hw. exists w. split; [| done].
  apply elem_of_cons in Hw as [-> | Hw%list_elem_of_singleton]; subst;
    apply list_elem_of_lookup; [by exists 0%nat | by exists 1%nat].
Defined.

(** The text "ok" while a playback is sounding. *)
Lemma playAudio_short_text_witness :
  Audio.cleanTextForTTS (JS.lit "*ok*") = JS.lit "ok"
  ∧ Audio.requests
      (Eff.exec (Audio.playAudio (JS.lit "*ok*")) (Audio.world Samples.sounding))
    = Audio.requests (Audio.world Samples.sounding).
Proof.
  split; [reflexivity |].
  apply (playAudio_short_text (JS.lit "*ok*") (Audio.world Samples.sounding));
    reflexivity.
Defined.

(** The synthesis service answering without audio. *)
Lemma synthesis_failure_falls_back_witness :
  Audio.TtsNoAudio ≠ Audio.TtsAudio true
  ∧ Audio.playing
      (Eff.exec (Audio.playAudio_resume (JS.lit "hello") Audio.TtsNoAudio)
         (Audio.world Samples.quiet))
    = Audio.playing (Audio.world Samples.quiet).
Proof.
  assert (H : Audio.TtsNoAudio ≠ Audio.TtsAudio true) by discriminate.
  split; [exact H |].
  apply (synthesis_failure_falls_back (JS.lit "hello") Audio.TtsNoAudio
           (Audio.world Samples.quiet) H).
Defined.


(** The greeting, then "haudu", one after the other on the quiet browser. *)
Lemma uninterrupted_play_owns_slot_witness :
  Audio.singleSlot (Audio.world Samples.quiet)
  ∧ Audio.activePlaybacks
      (Eff.exec (Audio.playToCompletion (kannada Samples.haudu) (Audio.TtsAudio true))
         (Eff.exec (Audio.playToCompletion (JS.lit "Namaskara! Heggiddira?")
                      (Audio.TtsAudio true))
            (Audio.world Samples.quiet)))
    = 1%nat.
Proof.
  assert (H : Audio.singleSlot (Audio.world Samples.quiet))
    by apply initial_singleSlot.
  split; [exact H |].
  apply (uninterrupted_play_owns_slot (JS.lit "Namaskara! Heggiddira?")
           (Audio.TtsAudio true) (kannada Samples.haudu)
           (Audio.world Samples.quiet) H); reflexivity.
Defined.


(** A transcript of two spaces. *)
Lemma handleVoiceResult_blank_witness :
  ChatInterface.handleVoiceResult 1700000000000 1700000000900 (JS.lit "  ")
    Samples.networkDown Samples.conversationOpened
  = (Normal tt, Samples.conversationOpened).
Proof.
  apply handleVoiceResult_blank. intros c Hc.
  apply elem_of_cons in Hc as [-> | Hc%list_elem_of_singleton]; by subst.
Defined.


(** An empty expected answer, with the ASCII case conversions. *)
Lemma validateAnswer_total_witness :
  Tutor.validateAnswer JS.asciiToLowerCase JS.asciiToUpperCase (JS.lit "illa") []
    (Tutor.TextRejected (Error (JS.lit "Failed to fetch"))) []
  = (Normal true, []).
Proof.
  apply (proj2 (proj2 (validateAnswer_total JS.asciiToLowerCase
                         JS.asciiToUpperCase (JS.lit "illa") []
                         (Tutor.TextRejected (Error (JS.lit "Failed to fetch"))) []))).
  reflexivity.
Defined.

(** A wrong answer to the sample quiz while the service is unreachable. *)
Lemma quiz_always_settles_witness :
  LessonView.quizState
    (LessonView.view
       (Eff.exec (LessonView.handleVoiceAnswer JS.asciiToLowerCase
                    JS.asciiToUpperCase (JS.lit "illa")
                    (Tutor.TextRejected (Error (JS.lit "Failed to fetch"))))
          Samples.lessonLoaded))
  = LessonView.failure.
Proof.
  destruct (quiz_always_settles JS.asciiToLowerCase JS.asciiToUpperCase
              (JS.lit "illa")
              (Tutor.TextRejected (Error (JS.lit "Failed to fetch")))
              Samples.lessonLoaded) as (_ & Hloaded & _).
  destruct (Hloaded _ eq_refl) as (_ & _ & _ & [(Hv & _) | (_ & Hq & _)]).
  - vm_compute in Hv. discriminate.
  - exact Hq.
Defined.


(** The sample lesson arriving at the mounted view. *)
Lemma lesson_fetch_outcome_witness :
  App.wordBank
    (LessonEffect.app
       (Eff.exec (LessonEffect.fetchLesson_resume true (Tutor.Parsed Samples.yesAndNo))
          Samples.lessonRequested))
  = [Samples.haudu; Samples.uncategorized].
Proof.
  destruct (lesson_fetch_outcome (Tutor.Parsed Samples.yesAndNo)
              Samples.lessonRequested) as (_ & _ & _ & _ & _ & _ & Hok).
  destruct (Hok _ eq_refl) as (_ & -> & _). reflexivity.
Defined.

(** A press on the mounted, idle voice control. *)
Lemma press_outcomes_witness :
  VoiceControl.isListening (VoiceControl.control Samples.voiceIdle) = false
  ∧ VoiceControl.recognitionRef (VoiceControl.control Samples.voiceIdle) = Some 0%nat
  ∧ VoiceControl.isListening
      (VoiceControl.control
         (Eff.exec (VoiceControl.startListening None) Samples.voiceIdle)) = true.
Proof.
  split; [reflexivity |]. split; [reflexivity |].
  destruct (press_outcomes Samples.voiceIdle 0 None eq_refl eq_refl)
    as (_ & Hok & _).
  destruct (Hok eq_refl eq_refl) as (Hl & _). exact Hl.
Defined.

(** The language changing while the button is held. *)
Lemma lang_effect_resets_witness :
  VoiceControl.sessionsHeld Samples.voiceListening
  ∧ VoiceControl.sessions (VoiceControl.step VoiceControl.LangEffect Samples.voiceListening)
    = ∅.
Proof.
  assert (H : VoiceControl.sessionsHeld Samples.voiceListening).
  { apply run_sessionsHeld, initial_sessionsHeld. }
  split; [exact H |].
  apply (lang_effect_resets Samples.voiceListening H).
Defined.

(** One hold of the button on the mounted, idle voice control. *)
Lemma press_release_cycle_witness :
  VoiceControl.control
    (VoiceControl.run
       [VoiceControl.Press None; VoiceControl.Release None;
        VoiceControl.Recognized 0 (JS.lit "hello"); VoiceControl.Ended 0]
       Samples.voiceIdle)
  = VoiceControl.control Samples.voiceIdle.
Proof.
  destruct (press_release_cycle Samples.voiceIdle 0 (JS.lit "hello")
              eq_refl eq_refl eq_refl) as (_ & _ & Hc & _).
  exact Hc.
Defined.

(** The bank of the sample session with an uncategorized word: two groups. *)
Lemma categorizedWords_groups_witness :
  ∃ groups,
    WordBankView.categorizedWords Samples.inheritedNames
      [Samples.uncategorized; Samples.haudu; Samples.namaskara; Samples.hegiddira]
    = inr groups
    ∧ groups !! JS.lit "General" = Some [Samples.uncategorized; Samples.haudu]
    ∧ groups !! JS.lit "Greetings" = Some [Samples.namaskara; Samples.hegiddira]
    ∧ groups !! JS.lit "Food" = None.
Proof.
  destruct (proj1 (categorizedWords_groups Samples.inheritedNames
                     [Samples.uncategorized; Samples.haudu; Samples.namaskara;
                      Samples.hegiddira])) as (groups & Hg & Hcat).
  - intros word Hw. repeat (apply elem_of_cons in Hw as [-> | Hw]);
      [reflexivity .. | by apply elem_of_nil in Hw].
  - exists groups. split; [exact Hg |]. rewrite !Hcat. by vm_compute.
Defined.
